(** * Shell_Cmd_Mock: the parser, the executable resolver and the process
    orchestrator of [shell.py], embedded in Rocq.

    Python strings are modelled as lists of characters; a character is a code
    point below 256.  System calls are recorded as events in a log, and the
    answers of the operating system come from an explicit [World]. *)

From Stdlib Require Import List Bool Arith ZArith Lia Ascii String DecimalString.
Import ListNotations.

Local Open Scope list_scope.

(** ** Strings *)

Definition str := list ascii.

Definition lit (s : string) : str := list_ascii_of_string s.

Definition chr (n : nat) : ascii := ascii_of_nat n.

(** [str.isspace] on one character, as [\s] of [re] and as [str.strip] and
    [str.split] see it: TAB, LF, VT, FF, CR, FS, GS, RS, US, SPACE, NEL,
    NBSP. *)
Definition isspace (c : ascii) : bool :=
  let n := nat_of_ascii c in
  ((9 <=? n) && (n <=? 13)) || ((28 <=? n) && (n <=? 32))
  || (n =? 133) || (n =? 160).

Definition nonspace (c : ascii) : bool := negb (isspace c).

(** Whether a string holds a NUL character.  [os.access], [os.open] and
    [os.execve] refuse such a string with [ValueError] before any system
    call. *)
Definition has_nul (s : str) : bool := existsb (fun c => Ascii.eqb c zero) s.

(** [s.lstrip()] *)
Fixpoint lstrip (s : str) : str :=
  match s with
  | c :: t => if isspace c then lstrip t else s
  | [] => []
  end.

(** [s.rstrip()] *)
Fixpoint rstrip (s : str) : str :=
  match s with
  | [] => []
  | c :: t =>
      match rstrip t with
      | [] => if isspace c then [] else [c]
      | r => c :: r
      end
  end.

(** [s.strip()] *)
Definition strip (s : str) : str := rstrip (lstrip s).

(** [s.endswith(c)] for a one-character suffix. *)
Fixpoint endswith (s : str) (c : ascii) : bool :=
  match s with
  | [] => false
  | [x] => Ascii.eqb x c
  | _ :: t => endswith t c
  end.

(** [s.split(sep)] for a one-character separator; [cur] is the piece being
    read.  Empty pieces are kept. *)
Fixpoint split_on (sep : ascii) (s cur : str) : list str :=
  match s with
  | [] => [cur]
  | c :: t =>
      if Ascii.eqb c sep then cur :: split_on sep t []
      else split_on sep t (cur ++ [c])
  end.

Definition emit (cur : str) : list str :=
  match cur with [] => [] | _ => [cur] end.

(** [s.split()]: the maximal runs of non-whitespace characters. *)
Fixpoint split_ws (s cur : str) : list str :=
  match s with
  | [] => emit cur
  | c :: t =>
      if isspace c then emit cur ++ split_ws t []
      else split_ws t (cur ++ [c])
  end.

(** ** The two regular expressions of the parser *)

(** The rest of a match of [\s*(\S+)]: the whitespace run is skipped, then
    the maximal run of non-whitespace characters is group 1; the match fails
    when that run is empty.  Returns group 1 and what follows the match. *)
Fixpoint take_nonspace (s : str) : str * str :=
  match s with
  | c :: t =>
      if isspace c then ([], s)
      else let '(p, r) := take_nonspace t in (c :: p, r)
  | [] => ([], [])
  end.

Definition match_path (s : str) : option (str * str) :=
  match take_nonspace (lstrip s) with
  | ([], _) => None
  | (p, r) => Some (p, r)
  end.

(** [re.search(m + r'\s*(\S+)', s)] followed by [.group(1)]: the leftmost
    position where the pattern matches. *)
Fixpoint re_search (m : ascii) (s : str) : option str :=
  match s with
  | [] => None
  | c :: t =>
      if Ascii.eqb c m then
        match match_path t with
        | Some (p, _) => Some p
        | None => re_search m t
        end
      else re_search m t
  end.

Definition is_marker (c : ascii) : bool :=
  Ascii.eqb c "<"%char || Ascii.eqb c ">"%char.

(** [re.sub(r'[<>]\s*\S+', '', s)]: the leftmost matches are deleted, the
    scan resuming after each match. *)
Fixpoint re_sub_fuel (fuel : nat) (s : str) : str :=
  match fuel with
  | O => s
  | S fuel' =>
      match s with
      | [] => []
      | c :: t =>
          if is_marker c then
            match match_path t with
            | Some (_, r) => re_sub_fuel fuel' r
            | None => c :: re_sub_fuel fuel' t
            end
          else c :: re_sub_fuel fuel' t
      end
  end.

Definition re_sub (s : str) : str := re_sub_fuel (List.length s) s.

(** ** Data model *)

Record Stage := mkStage {
  cmd : str;
  args : list str;
  input : option str;
  output : option str;
  background : bool
}.

Inductive exn :=
| ValueError
| KeyError
| IndexError
| OSError
| SystemExit (code : Z).

(** What the process asked of the operating system, in order. *)
Inductive event :=
| EWrite (fd : Z) (data : str)          (* os.write *)
| EPrint (data : str)                   (* print *)
| EPipe (pr pw : Z)                     (* os.pipe *)
| ESetInheritable (fd : Z)              (* os.set_inheritable(fd, True) *)
| EGetpid                               (* os.getpid *)
| EFork (rc : Z)                        (* os.fork *)
| EClose (fd : Z)                       (* os.close *)
| EDup2 (fd fd2 : Z)                    (* os.dup2 *)
| EOpenRead (path : str)                (* os.open(path, O_RDONLY) *)
| EOpenWrite (path : str)               (* os.open(path, O_CREAT|O_WRONLY) *)
| EWaitpid (pid : Z)                    (* os.waitpid(pid, 0) *)
| EWait                                 (* os.wait *)
| EExecve (exe : str) (argv : list str) (* os.execve *).

(** ** Parser *)

(** The value [parser] returns: [False] or the list of stages. *)
Inductive parsed :=
| PFalse
| PList (commands : list Stage).

Definition syntax_error_msg : str :=
  lit "-bash: syntax error near unexpected token `|'" ++ [chr 10].

(** Lines 51-62: the two searches, the substitution and the tokenization. *)
Definition redirections (c : str) : option str * option str * list str :=
  let inp := re_search "<"%char c in
  let out := re_search ">"%char c in
  let c' := strip (re_sub c) in
  (inp, out, split_ws c' []).

(** The [while] loop of [parser]: [rest] holds [pipe_commands[i:]]. *)
Fixpoint parser_loop (n_cmds i : nat) (rest : list str)
    (commands : list Stage) : list event * parsed :=
  match rest with
  | [] => ([], PList commands)
  | seg :: rest' =>
      let c := strip seg in
      let check :=
        if endswith c "&"%char then
          if i <? n_cmds - 1 then None
          else Some (true, strip (removelast c))
        else Some (false, c) in
      match check with
      | None => ([EWrite 2 syntax_error_msg], PFalse)
      | Some (bg, c) =>
          let '(inp, out, parts) := redirections c in
          let commands' :=
            match parts with
            | [] => commands
            | p0 :: _ => commands ++ [mkStage p0 parts inp out bg]
            end in
          parser_loop n_cmds (S i) rest' commands'
      end
  end.

Definition parser (cmds : str) : list event * parsed :=
  let pipe_commands := split_on "|"%char cmds [] in
  parser_loop (List.length pipe_commands) 0 pipe_commands [].

(** ** Effects

    A computation reads the [World] through the functions below, appends to
    the log of events and ends in a value, in an exception, or with the
    process image replaced by [os.execve]. *)

Inductive outcome (A : Type) :=
| Ret (a : A)
| Raise (e : exn)
| Replaced (exe : str) (argv : list str).
Arguments Ret {A} a.
Arguments Raise {A} e.
Arguments Replaced {A} exe argv.

(** [log]: the events so far, oldest first; [forks]: what the coming calls of
    [os.fork] return in this process (0 in a child, the child's pid in the
    parent). *)
Record St := mkSt {
  log : list event;
  forks : list Z
}.

Definition M (A : Type) : Type := St -> outcome A * St.

Definition ret {A} (a : A) : M A := fun st => (Ret a, st).

Definition raise {A} (e : exn) : M A := fun st => (Raise e, st).

Definition bind {A B} (c : M A) (k : A -> M B) : M B :=
  fun st =>
    match c st with
    | (Ret a, st') => k a st'
    | (Raise e, st') => (Raise e, st')
    | (Replaced exe argv, st') => (Replaced exe argv, st')
    end.

Notation "x <- c ;; k" := (bind c (fun x => k))
  (at level 61, c at next level, right associativity).
Notation "' pat <- c ;; k" := (bind c (fun x => match x with pat => k end))
  (at level 61, pat pattern, c at next level, right associativity).
Notation "c ;; k" := (bind c (fun _ => k))
  (at level 61, right associativity).

Definition emit_event (e : event) : M unit :=
  fun st => (Ret tt, mkSt (log st ++ [e]) (forks st)).

Definition lift {A} (o : outcome A) : M A := fun st => (o, st).

(** How the call of [os.execve] with the stage's argument vector ends. *)
Inductive exec_result :=
| ExecOk            (* the image is replaced *)
| ExecNotFound      (* FileNotFoundError *)
| ExecOtherError    (* any other OSError *)
| ExecValueError.   (* ValueError: a NUL character in the path or in an
                       argument, an empty argv or an empty argv[0] *)

Record World := mkWorld {
  access_x : str -> bool;           (* os.access(path, os.X_OK) *)
  env_path : option str;            (* os.environ['PATH'], when set *)
  pipe_fds : Z * Z;                 (* what os.pipe() returns *)
  waitpid_result : Z -> Z * Z;      (* what os.waitpid(pid, 0) returns *)
  wait_result : Z * Z;              (* what os.wait() returns *)
  open_ok : str -> bool;            (* whether os.open succeeds *)
  execve_result : str -> exec_result
}.

Definition os_write (fd : Z) (data : str) : M unit := emit_event (EWrite fd data).
Definition print (data : str) : M unit := emit_event (EPrint data).
Definition os_close (fd : Z) : M unit := emit_event (EClose fd).
Definition os_dup2 (fd fd2 : Z) : M unit := emit_event (EDup2 fd fd2).
Definition os_set_inheritable (fd : Z) : M unit := emit_event (ESetInheritable fd).
Definition os_getpid : M unit := emit_event EGetpid.
Definition sys_exit {A} (code : Z) : M A := raise (SystemExit code).

Definition os_pipe (w : World) : M (Z * Z) :=
  emit_event (EPipe (fst (pipe_fds w)) (snd (pipe_fds w)));; ret (pipe_fds w).

(** [os.fork] raises [OSError] when no process can be created. *)
Definition os_fork : M Z :=
  fun st =>
    match forks st with
    | [] => (Raise OSError, st)
    | rc :: more => (Ret rc, mkSt (log st ++ [EFork rc]) more)
    end.

Definition os_waitpid (w : World) (pid : Z) : M (Z * Z) :=
  emit_event (EWaitpid pid);; ret (waitpid_result w pid).

Definition os_wait (w : World) : M (Z * Z) :=
  emit_event EWait;; ret (wait_result w).

(** [os.open] raises [ValueError] on a path that holds NUL, without calling
    the system, and an [OSError] when the system refuses. *)
Definition os_open_read (w : World) (path : str) : M unit :=
  if has_nul path then raise ValueError
  else
    emit_event (EOpenRead path);;
    if open_ok w path then ret tt else raise OSError.

Definition os_open_write (w : World) (path : str) : M unit :=
  if has_nul path then raise ValueError
  else
    emit_event (EOpenWrite path);;
    if open_ok w path then ret tt else raise OSError.

(** Decimal text of an integer, as [%d] and [{...}] print it. *)
Definition dec (z : Z) : str := lit (NilZero.string_of_int (Z.to_int z)).

Definition nl : str := [chr 10].

(** ** Executable resolver *)

(** [os.path.isabs] *)
Definition isabs (p : str) : bool :=
  match p with
  | c :: _ => Ascii.eqb c "/"%char
  | [] => false
  end.

(** [os.path.join(a, b)] *)
Definition path_join (a b : str) : str :=
  if isabs b then b
  else match a with
       | [] => b
       | _ => if endswith a "/"%char then a ++ b else a ++ lit "/" ++ b
       end.

(** [os.access(path, os.X_OK)]: [ValueError] on a path that holds NUL. *)
Definition os_access (w : World) (path : str) : outcome bool :=
  if has_nul path then Raise ValueError else Ret (access_x w path).

(** The [for path in paths] loop of [find_executable], and its final
    [return None]. *)
Fixpoint search_paths (w : World) (paths : list str) (name : str)
    : outcome (option str) :=
  match paths with
  | [] => Ret None
  | path :: more =>
      let exe := path_join path name in
      match os_access w exe with
      | Ret true => Ret (Some exe)
      | Ret false => search_paths w more name
      | Raise e => Raise e
      | Replaced x argv => Replaced x argv
      end
  end.

(** [os.path.isabs(cmd) and os.access(cmd, os.X_OK)]: [os.access] is called
    only on an absolute name. *)
Definition find_executable (w : World) (c : Stage) : outcome (option str) :=
  let name := cmd c in
  match (if isabs name then os_access w name else Ret false) with
  | Ret true => Ret (Some name)
  | Ret false =>
      match env_path w with
      | None => Raise KeyError
      | Some p => search_paths w (split_on ":"%char p []) name
      end
  | Raise e => Raise e
  | Replaced x argv => Replaced x argv
  end.

(** ** Process orchestrator *)

Definition execute (w : World) (exe : option str) (c : Stage) : M unit :=
  match exe with
  | None =>
      os_write 2 (cmd c ++ lit ": command not found" ++ nl);;
      sys_exit 1
  | Some e =>
      match execve_result w e with
      | ExecValueError => raise ValueError
      | ExecOk => emit_event (EExecve e (args c));; lift (Replaced e (args c))
      | ExecNotFound =>
          emit_event (EExecve e (args c));;
          os_write 2 (lit "Failed to execute: " ++ e);;
          sys_exit 1
      | ExecOtherError => emit_event (EExecve e (args c));; raise OSError
      end
  end.

(** A path is true in a condition when it is neither [None] nor empty. *)
Definition truthy (p : option str) : option str :=
  match p with
  | Some (_ :: _) => p
  | _ => None
  end.

Definition redirect (w : World) (c : Stage) : M unit :=
  match truthy (input c) with
  | Some p => os_close 0;; os_open_read w p;; os_set_inheritable 0
  | None => ret tt
  end;;
  match truthy (output c) with
  | Some p => os_close 1;; os_open_write w p;; os_set_inheritable 1
  | None => ret tt
  end.

(** Line 168: [cmd_0, cmd_1 = cmds if len(cmds) != 1 else (cmds[0], None)]. *)
Definition unpack (cmds : list Stage) : M (Stage * option Stage) :=
  let rhs :=
    if negb (List.length cmds =? 1) then map Some cmds
    else map Some (firstn 1 cmds) ++ [None] in
  match rhs with
  | [Some cmd_0; cmd_1] => ret (cmd_0, cmd_1)
  | _ => raise ValueError
  end.

(** Line 169: [cmds[-1].get('background')]. *)
Definition last_background (cmds : list Stage) : M bool :=
  match rev cmds with
  | c :: _ => ret (background c)
  | [] => raise IndexError
  end.

Definition child1_msg (pid status : Z) : str :=
  lit "Parent: Child 1 " ++ dec pid ++ lit " terminated with exit code "
  ++ dec status ++ nl.

Definition child2_msg (pid status : Z) : str :=
  lit "Parent: Child 2 " ++ dec pid ++ lit " terminated with exit code "
  ++ dec status ++ nl.

Definition child_msg (pid status : Z) : str :=
  lit "Parent: Child " ++ dec pid ++ lit " terminated with exit code "
  ++ dec status ++ nl.

Definition bg_pipe_msg : str := lit "Background process (pipe)" ++ nl.
Definition bg_single_msg : str := lit "Background process (single)" ++ nl.

Definition run_cmds (w : World) (cmds : list Stage) : M unit :=
  '(cmd_0, cmd_1) <- unpack cmds;;
  is_background <- last_background cmds;;
  '(pr, pw) <-
    match cmd_1 with
    | Some _ =>
        '(pr, pw) <- os_pipe w;;
        os_set_inheritable pr;; os_set_inheritable pw;;
        ret (pr, pw)
    | None => ret (0%Z, 0%Z)   (* [None, None]: never read without a pipe *)
    end;;
  os_getpid;;
  rc <- os_fork;;
  if (rc <? 0)%Z then
    os_write 2 (lit "Fork failed, returning " ++ dec rc ++ nl);;
    sys_exit 1
  else if (rc =? 0)%Z then
    (* child *)
    exe <- lift (find_executable w cmd_0);;
    redirect w cmd_0;;
    match cmd_1 with
    | Some _ => os_close pr;; os_dup2 pw 1;; os_close pw
    | None => ret tt
    end;;
    execute w exe cmd_0
  else
    (* parent *)
    match cmd_1 with
    | Some cmd_1 =>
        os_close pw;;
        child1_status <- os_waitpid w rc;;
        (if negb (snd child1_status =? 0)%Z then
           os_write 2 (child1_msg (fst child1_status) (snd child1_status))
         else ret tt);;
        rc2 <- os_fork;;
        if (rc2 <? 0)%Z then
          os_write 2 (lit "Second fork failed, returning " ++ dec rc ++ nl);;
          sys_exit 1
        else if (rc2 =? 0)%Z then
          (* second child *)
          exe2 <- lift (find_executable w cmd_1);;
          redirect w cmd_1;;
          os_dup2 pr 0;;
          os_close pr;;
          execute w exe2 cmd_1
        else
          os_close pr;;
          if is_background then
            os_write 2 bg_pipe_msg
          else
            child2_status <- os_waitpid w rc2;;
            if negb (snd child2_status =? 0)%Z then
              os_write 1 (child2_msg (fst child2_status) (snd child2_status))
            else ret tt
    | None =>
        if is_background then
          os_write 2 bg_single_msg
        else
          childPidCode <- os_wait w;;
          if negb (snd childPidCode =? 0)%Z then
            os_write 1 (child_msg (fst childPidCode) (snd childPidCode))
          else ret tt
    end.

(** Running [c] in a fresh process state whose forks return [fk]. *)
Definition run {A} (c : M A) (fk : list Z) : outcome A * list event :=
  let '(o, st) := c (mkSt [] fk) in (o, log st).

(** ** Shell driver *)

Fixpoint startswith (s p : str) : bool :=
  match p, s with
  | [], _ => true
  | x :: p', y :: s' => Ascii.eqb x y && startswith s' p'
  | _ :: _, [] => false
  end.

(** The body of the [try] of [run_shell], from the line read and stripped
    ([user_in]) on.  [print] adds the newline itself.  [not parsed_cmds]
    holds of [False] and of the empty list. *)
Definition shell_body (w : World) (user_in : str) : M unit :=
  (if startswith user_in (lit "exit") then sys_exit 0 else ret tt);;
  if List.length user_in =? 0 then print []
  else
    let '(evs, parsed_cmds) := parser user_in in
    fold_right (fun e k => emit_event e;; k) (ret tt) evs;;
    match parsed_cmds with
    | PList (c :: cs) => run_cmds w (c :: cs)
    | _ => print (lit "no commands")
    end.

(** ** Reading a log *)

Definition is_fork (e : event) : bool :=
  match e with EFork _ => true | _ => false end.

Definition is_pipe (e : event) : bool :=
  match e with EPipe _ _ => true | _ => false end.

Definition is_wait (e : event) : bool :=
  match e with EWaitpid _ | EWait => true | _ => false end.

(** The descriptor and the data of every [os.write], in order. *)
Fixpoint writes (tr : list event) : list (Z * str) :=
  match tr with
  | [] => []
  | EWrite fd data :: t => (fd, data) :: writes t
  | _ :: t => writes t
  end.

(** The events that follow the last [os.fork] of the log ([acc]: the events
    since the last fork seen). *)
Fixpoint since_last_fork (tr acc : list event) : list event :=
  match tr with
  | [] => acc
  | e :: t => if is_fork e then since_last_fork t [] else since_last_fork t (acc ++ [e])
  end.

(** Whether descriptor [fd] is open in this process after the log, when it
    was [open0] before: [os.pipe] opens both ends, [os.dup2] opens its
    target, [os.close] closes. *)
Fixpoint fd_open (tr : list event) (fd : Z) (open0 : bool) : bool :=
  match tr with
  | [] => open0
  | EPipe pr pw :: t => fd_open t fd (open0 || (fd =? pr)%Z || (fd =? pw)%Z)
  | EDup2 _ fd2 :: t => fd_open t fd (open0 || (fd =? fd2)%Z)
  | EClose x :: t => fd_open t fd (open0 && negb (fd =? x)%Z)
  | _ :: t => fd_open t fd open0
  end.

(** The first [n] forks exist and return a child's pid: the process is the
    parent throughout. *)
Definition forks_ok (n : nat) (fk : list Z) : bool :=
  (n <=? List.length fk) && forallb (fun rc => (0 <? rc)%Z) (firstn n fk).

(** ** Sample inputs *)

Definition sample_world : World :=
  mkWorld (fun p => match p with _ :: _ => true | [] => false end)
          (Some (lit "/usr/bin:/bin"))
          (3%Z, 4%Z)
          (fun pid => (pid, 256%Z))
          (100%Z, 512%Z)
          (fun _ => true)
          (fun _ => ExecOk).

Definition st_ls : Stage := mkStage (lit "ls") [lit "ls"] None None false.
Definition st_wc : Stage := mkStage (lit "wc") [lit "wc"] None None false.
Definition st_wc_bg : Stage := mkStage (lit "wc") [lit "wc"] None None true.
Definition st_sleep_bg : Stage :=
  mkStage (lit "sleep") [lit "sleep"; lit "10"] None None true.

(** ** The grammar of a segment

    A segment as the input grammar describes it: plain tokens and
    redirection clauses, separated by whitespace, possibly closed by a
    marker that stands alone. *)

Inductive item :=
| Tok (w : str)                        (* a plain token *)
| Redir (m : ascii) (gap path : str)   (* marker, whitespace, path *)
| Bare (m : ascii).                    (* a marker with nothing after it *)

(** A character of a plain token: no whitespace and none of [< > | &]. *)
Definition plain_char (c : ascii) : bool :=
  negb (isspace c) && negb (is_marker c)
  && negb (Ascii.eqb c "|"%char) && negb (Ascii.eqb c "&"%char).

Definition plain (w : str) : bool :=
  match w with
  | [] => false
  | _ => forallb plain_char w
  end.

Definition blank (s : str) : bool := forallb isspace s.

Definition item_ok (it : item) : bool :=
  match it with
  | Tok w => plain w
  | Redir m gap path => is_marker m && blank gap && plain path
  | Bare m => is_marker m
  end.

Definition text (it : item) : str :=
  match it with
  | Tok w => w
  | Redir m gap path => m :: gap ++ path
  | Bare m => [m]
  end.

(** Each item comes with the whitespace that precedes it. *)
Fixpoint render (its : list (str * item)) : str :=
  match its with
  | [] => []
  | (sep, it) :: tl => sep ++ text it ++ render tl
  end.

Definition nonempty (s : str) : bool :=
  match s with [] => false | _ => true end.

(** Separators are whitespace, non-empty except perhaps the first; a bare
    marker can only be the last item. *)
Fixpoint items_ok (first : bool) (its : list (str * item)) : bool :=
  match its with
  | [] => true
  | (sep, it) :: tl =>
      blank sep && (first || nonempty sep) && item_ok it
      && match it, tl with
         | Bare _, _ :: _ => false
         | _, _ => true
         end
      && items_ok false tl
  end.

(** A stripped, non-empty segment: nothing precedes its first item. *)
Definition line_ok (its : list (str * item)) : bool :=
  match its with
  | ([], _) :: _ => items_ok true its
  | _ => false
  end.

Definition only_tokens (its : list (str * item)) : bool :=
  forallb (fun x => match snd x with Tok _ => true | _ => false end) its.

(** The argument vector a segment stands for. *)
Fixpoint tokens (its : list (str * item)) : list str :=
  match its with
  | [] => []
  | (_, Tok w) :: tl => w :: tokens tl
  | (_, Redir _ _ _) :: tl => tokens tl
  | (_, Bare m) :: tl => [m] :: tokens tl
  end.

(** The path of the first clause with marker [m]. *)
Fixpoint first_path (m : ascii) (its : list (str * item)) : option str :=
  match its with
  | [] => None
  | (_, Redir m' _ p) :: tl => if Ascii.eqb m' m then Some p else first_path m tl
  | _ :: tl => first_path m tl
  end.

(** What is left of a segment once the clauses are deleted. *)
Fixpoint kept (its : list (str * item)) : str :=
  match its with
  | [] => []
  | (sep, Redir _ _ _) :: tl => sep ++ kept tl
  | (sep, it) :: tl => sep ++ text it ++ kept tl
  end.

(** The stages [parser] makes of a one-segment line. *)
Definition stage_of (its : list (str * item)) : list Stage :=
  match tokens its with
  | [] => []
  | c0 :: _ =>
      [mkStage c0 (tokens its) (first_path "<"%char its)
               (first_path ">"%char its) false]
  end.

Definition starts_blank (s : str) : bool :=
  match s with
  | [] => true
  | c :: _ => isspace c
  end.

(** The last character is neither whitespace nor "&". *)
Fixpoint last_solid (s : str) : bool :=
  match s with
  | [] => false
  | [c] => negb (isspace c) && negb (Ascii.eqb c "&"%char)
  | _ :: t => last_solid t
  end.

(** ** Auxiliary notions *)

(** A computation that never hands a value back to its caller. *)
Definition no_return {A} (c : M A) : Prop :=
  forall st a st', c st <> (Ret a, st').

(** The diagnostic of a wait that reported [r] = (pid, status). *)
Definition status_report (fd : Z) (msg : Z -> Z -> str) (r : Z * Z) : list event :=
  if negb (snd r =? 0)%Z then [EWrite fd (msg (fst r) (snd r))] else [].

(** The candidate path as the specification words it: the entry, a slash,
    the name. *)
Definition spec_candidate (entry name : str) : str := entry ++ lit "/" ++ name.

(** ** More sample inputs *)

Definition str_eqb (a b : str) : bool :=
  if list_eq_dec ascii_dec a b then true else false.

Definition path_world : World :=
  mkWorld (fun p => str_eqb p (lit "/bin/ls"))
          (Some (lit "/usr/bin:/bin"))
          (3%Z, 4%Z) (fun pid => (pid, 0%Z)) (100%Z, 0%Z)
          (fun _ => true) (fun _ => ExecOk).

(** Only [/bin/ls] is executable, under both of its spellings. *)
Definition slash_world : World :=
  mkWorld (fun p => str_eqb p (lit "/bin/ls") || str_eqb p (lit "/bin//ls"))
          (Some (lit "/bin"))
          (3%Z, 4%Z) (fun pid => (pid, 0%Z)) (100%Z, 0%Z)
          (fun _ => true) (fun _ => ExecOk).

(** Only [ls] of the current directory is executable; the search path ends
    with an empty entry. *)
Definition cwd_world : World :=
  mkWorld (fun p => str_eqb p (lit "ls"))
          (Some (lit "/usr/bin:"))
          (3%Z, 4%Z) (fun pid => (pid, 0%Z)) (100%Z, 0%Z)
          (fun _ => true) (fun _ => ExecOk).

Definition st_abs : Stage := mkStage (lit "/ls") [lit "/ls"] None None false.

(** A name that holds a NUL character, as [parser] makes it of such a line. *)
Definition nul_name : str := lit "a" ++ [zero] ++ lit "b".
Definition st_nul : Stage := mkStage nul_name [nul_name] None None false.
Definition st_abs_nul : Stage :=
  mkStage (lit "/" ++ nul_name) [lit "/" ++ nul_name] None None false.

(** ** The shell loop *)

(** How an iteration of [while True] ends: [continue] or [break]. *)
Inductive ctl := Continue | Break.

(** [os.getenv("PS1", "$ ")] *)
Definition prompt (env_ps1 : option str) : str :=
  match env_ps1 with
  | Some p => p
  | None => lit "$ "
  end.

(** One iteration of the loop of [run_shell] on the line [raw] that
    [sys.stdin.readline()] returned: the [try] body and its two handlers.
    [readline] raises no [EOFError]; any exception other than [SystemExit]
    leaves the loop and [run_shell]. *)
Definition shell_iteration (w : World) (ps1 raw : str) : M ctl :=
  fun st =>
    match (os_write 1 ps1;; shell_body w (strip raw)) st with
    | (Ret _, st') => (Ret Continue, st')
    | (Raise (SystemExit _), st') =>
        (print (lit "Exiting shell.");; ret Break) st'
    | (Raise e, st') => (Raise e, st')
    | (Replaced exe argv, st') => (Replaced exe argv, st')
    end.

(** [sys.stdin.readline()] on the lines still to come: the empty string at
    end of input. *)
Definition readline (stdin : list str) : str * list str :=
  match stdin with
  | [] => ([], [])
  | l :: more => (l, more)
  end.

(** [run_shell], for at most [fuel] iterations: [Some tt] when the loop was
    left by [break], [None] when it is still running. *)
Fixpoint run_shell (fuel : nat) (w : World) (ps1 : str) (stdin : list str)
    : M (option unit) :=
  match fuel with
  | O => ret None
  | S fuel' =>
      let '(raw, more) := readline stdin in
      c <- shell_iteration w ps1 raw;;
      match c with
      | Break => ret (Some tt)
      | Continue => run_shell fuel' w ps1 more
      end
  end.

(** ** Descriptor tables

    What each open descriptor of a process refers to, replayed from its log.
    A forked child starts from the log of its parent. *)

Inductive resource :=
| RStd (n : Z)              (* what the shell itself was started with *)
| RPipeRead                 (* the read end of the pipe *)
| RPipeWrite                (* the write end of the pipe *)
| RFileRead (path : str)    (* a file opened O_RDONLY *)
| RFileWrite (path : str).  (* a file opened O_CREAT|O_WRONLY *)

Definition fd_table := list (Z * resource).

Definition fd_lookup (fd : Z) (tab : fd_table) : option resource :=
  match find (fun e => (fst e =? fd)%Z) tab with
  | Some e => Some (snd e)
  | None => None
  end.

Definition fd_remove (fd : Z) (tab : fd_table) : fd_table :=
  filter (fun e => negb (fst e =? fd)%Z) tab.

Definition fd_set (fd : Z) (r : resource) (tab : fd_table) : fd_table :=
  (fd, r) :: fd_remove fd tab.

Definition is_open (fd : Z) (tab : fd_table) : bool :=
  match fd_lookup fd tab with Some _ => true | None => false end.

(** The lowest descriptor that is not open, which [os.open] returns. *)
Fixpoint first_free (fuel : nat) (n : Z) (tab : fd_table) : Z :=
  match fuel with
  | O => n
  | S fuel' => if is_open n tab then first_free fuel' (n + 1)%Z tab else n
  end.

Definition lowest_free (tab : fd_table) : Z :=
  first_free (List.length tab) 0%Z tab.

Definition apply_event (w : World) (tab : fd_table) (e : event) : fd_table :=
  match e with
  | EPipe pr pw => fd_set pw RPipeWrite (fd_set pr RPipeRead tab)
  | EClose fd => fd_remove fd tab
  | EDup2 fd fd2 =>
      match fd_lookup fd tab with
      | Some r => fd_set fd2 r tab
      | None => tab
      end
  | EOpenRead p =>
      if open_ok w p then fd_set (lowest_free tab) (RFileRead p) tab else tab
  | EOpenWrite p =>
      if open_ok w p then fd_set (lowest_free tab) (RFileWrite p) tab else tab
  | _ => tab
  end.

Definition descriptors (w : World) (tr : list event) (tab : fd_table) : fd_table :=
  fold_left (apply_event w) tr tab.

(** The events of [redirect] when its files open. *)
Definition redirect_events (c : Stage) : list event :=
  match truthy (input c) with
  | Some p => [EClose 0; EOpenRead p; ESetInheritable 0]
  | None => []
  end
  ++ match truthy (output c) with
     | Some p => [EClose 1; EOpenWrite p; ESetInheritable 1]
     | None => []
     end.

(** The exception of [os.open] on [p], if any. *)
Definition open_failure (w : World) (p : str) : option exn :=
  if has_nul p then Some ValueError
  else if open_ok w p then None else Some OSError.

Definition open_succeeds (w : World) (p : str) : bool :=
  match open_failure w p with None => true | Some _ => false end.

(** Every [os.open] of [redirect] succeeds. *)
Definition opens_ok (w : World) (c : Stage) : bool :=
  match truthy (input c) with Some p => open_succeeds w p | None => true end
  && match truthy (output c) with Some p => open_succeeds w p | None => true end.

(** The first half of [redirect], and the second. *)
Definition redirect_input (w : World) (c : Stage) : M unit :=
  match truthy (input c) with
  | Some p => os_close 0;; os_open_read w p;; os_set_inheritable 0
  | None => ret tt
  end.

Definition redirect_output (w : World) (c : Stage) : M unit :=
  match truthy (output c) with
  | Some p => os_close 1;; os_open_write w p;; os_set_inheritable 1
  | None => ret tt
  end.

(** The exception that ends [redirect], if any: that of its first [os.open]
    that fails. *)
Definition redirect_failure (w : World) (c : Stage) : option exn :=
  let out :=
    match truthy (output c) with
    | Some q => open_failure w q
    | None => None
    end in
  match truthy (input c) with
  | Some p =>
      match open_failure w p with
      | Some e => Some e
      | None => out
      end
  | None => out
  end.

(** A token of [str.split()]: non-empty, without whitespace. *)
Definition word (s : str) : bool := nonempty s && forallb nonspace s.

Definition path_word (p : option str) : bool :=
  match p with
  | Some s => word s
  | None => true
  end.

Definition is_exec (e : event) : bool :=
  match e with EExecve _ _ => true | _ => false end.

(** ** Built-in [cd]

    [cd] is bound in [std_cmds]; it is modelled on its own, with the answer
    of [os.chdir] and the home directory of [os.path.expanduser('~')] as
    parameters. *)

Inductive chdir_result :=
| ChdirOk
| ChdirNotFound        (* FileNotFoundError *)
| ChdirPermission      (* PermissionError *)
| ChdirOtherError.     (* any other OSError *)

Inductive cd_outcome :=
| CdChanged (target : str)   (* os.chdir(target) succeeded *)
| CdPrinted (msg : str)      (* nothing changed, [msg] printed *)
| CdIndexError               (* args[1] out of range *)
| CdOSError.                 (* an OSError that [cd] does not catch *)

(** The argument of [os.chdir]; [None] when [args[1]] is out of range. *)
Definition cd_target (home : str) (args : list str) : option str :=
  if List.length args =? 1 then Some home
  else
    match nth_error args 1 with
    | None => None
    | Some a =>
        if list_eq_dec ascii_dec a (lit "~") then Some home
        else if list_eq_dec ascii_dec a (lit "/") then Some (lit "/")
        else Some a
    end.

(** The handlers format [args[1]], which can be out of range in turn. *)
Definition cd_report (args : list str) (what : str) : cd_outcome :=
  match nth_error args 1 with
  | Some a => CdPrinted (lit "cd " ++ a ++ what)
  | None => CdIndexError
  end.

Definition cd (chdir : str -> chdir_result) (home : str) (args : list str)
    : cd_outcome :=
  match cd_target home args with
  | None => CdIndexError
  | Some t =>
      match chdir t with
      | ChdirOk => CdChanged t
      | ChdirNotFound => cd_report args (lit ": No such file or directory")
      | ChdirPermission => cd_report args (lit ": Permission denied")
      | ChdirOtherError => CdOSError
      end
  end.

(** The search-path variable is not set. *)
Definition no_path_world : World :=
  mkWorld (fun _ => true) None (3%Z, 4%Z) (fun pid => (pid, 0%Z)) (100%Z, 0%Z)
          (fun _ => true) (fun _ => ExecOk).

(** A world where nothing is executable and no file opens. *)
Definition bare_world : World :=
  mkWorld (fun _ => false) (Some (lit "/usr/bin:/bin")) (3%Z, 4%Z)
          (fun pid => (pid, 0%Z)) (100%Z, 0%Z)
          (fun _ => false) (fun _ => ExecOk).

Definition st_cat_io : Stage :=
  mkStage (lit "cat") [lit "cat"] (Some (lit "in.txt")) (Some (lit "out.txt")) false.

(** What [parser] makes of "cat <a" ++ NUL ++ "b": an input path with NUL. *)
Definition st_cat_nul : Stage :=
  mkStage (lit "cat") [lit "cat"] (Some nul_name) None false.

(** The descriptors a shell is started with. *)
Definition std_table : fd_table :=
  [(0%Z, RStd 0); (1%Z, RStd 1); (2%Z, RStd 2)].

Definition st_ls_out : Stage :=
  mkStage (lit "ls") [lit "ls"] None (Some (lit "out.txt")) false.

Definition st_wc_in : Stage :=
  mkStage (lit "wc") [lit "wc"] (Some (lit "in.txt")) None false.

(** * Properties *)

(** ** The model at work *)

Example parse_two_stages :
  parser (lit "grep x <in | sort >out &")
  = ([], PList [mkStage (lit "grep") [lit "grep"; lit "x"] (Some (lit "in")) None false;
                mkStage (lit "sort") [lit "sort"] None (Some (lit "out")) true]).
Proof. vm_compute. reflexivity. Qed.

Example parse_first_match_wins :
  parser (lit "cat <a <b")
  = ([], PList [mkStage (lit "cat") [lit "cat"] (Some (lit "a")) None false]).
Proof. vm_compute. reflexivity. Qed.

Example parse_blank_segments : parser (lit " | ") = ([], PList []).
Proof. vm_compute. reflexivity. Qed.

Example dec_status : dec 256 = lit "256" /\ dec (-1) = lit "-1" /\ dec 0 = lit "0".
Proof. vm_compute. repeat split. Qed.

Example run_foreground_pipe :
  run (run_cmds sample_world [st_ls; st_wc]) [100; 101]%Z
  = (Ret tt,
     [EPipe 3 4; ESetInheritable 3; ESetInheritable 4; EGetpid; EFork 100;
      EClose 4; EWaitpid 100; EWrite 2 (child1_msg 100 256);
      EFork 101; EClose 3; EWaitpid 101; EWrite 1 (child2_msg 101 256)]).
Proof. vm_compute. reflexivity. Qed.

Example run_first_child :
  run (run_cmds sample_world [st_ls; st_wc]) [0]%Z
  = (Replaced (lit "/usr/bin/ls") [lit "ls"],
     [EPipe 3 4; ESetInheritable 3; ESetInheritable 4; EGetpid; EFork 0;
      EClose 3; EDup2 4 1; EClose 4; EExecve (lit "/usr/bin/ls") [lit "ls"]]).
Proof. vm_compute. reflexivity. Qed.

(** ** The monad *)

Lemma bind_ret_inv {A B} (c : M A) (k : A -> M B) st b st' :
  bind c k st = (Ret b, st') ->
  exists a st1, c st = (Ret a, st1) /\ k a st1 = (Ret b, st').
Proof.
  unfold bind. destruct (c st) as [[a|e|exe argv] st1]; intros H.
  - exists a, st1. split; [reflexivity | exact H].
  - discriminate H.
  - discriminate H.
Qed.


Lemma no_return_bind_l {A B} (c : M A) (k : A -> M B) :
  no_return c -> no_return (bind c k).
Proof.
  intros Hc st b st' H. apply bind_ret_inv in H.
  destruct H as (a & st1 & H1 & _). exact (Hc _ _ _ H1).
Qed.

Lemma no_return_bind_r {A B} (c : M A) (k : A -> M B) :
  (forall a, no_return (k a)) -> no_return (bind c k).
Proof.
  intros Hk st b st' H. apply bind_ret_inv in H.
  destruct H as (a & st1 & _ & H2). exact (Hk _ _ _ _ H2).
Qed.

Lemma no_return_sys_exit {A} code : no_return (@sys_exit A code).
Proof. intros st a st' H. discriminate H. Qed.

(** [execute] ends the process or replaces its image. *)
Lemma execute_no_return w exe c : no_return (execute w exe c).
Proof.
  unfold execute. destruct exe as [e|].
  - destruct (execve_result w e).
    + apply no_return_bind_r. intros _. intros st a st' H. discriminate H.
    + apply no_return_bind_r. intros _.
      apply no_return_bind_r. intros _. apply no_return_sys_exit.
    + apply no_return_bind_r. intros _. intros st a st' H. discriminate H.
    + intros st a st' H. discriminate H.
  - apply no_return_bind_r. intros _. apply no_return_sys_exit.
Qed.

(** ** The orchestrator in the parent *)

Lemma pid_tests rc : (0 < rc)%Z -> (rc <? 0)%Z = false /\ (rc =? 0)%Z = false.
Proof. intros H. split; [apply Z.ltb_ge | apply Z.eqb_neq]; lia. Qed.


Lemma run_single_parent w c rc fk :
  (0 < rc)%Z ->
  run (run_cmds w [c]) (rc :: fk)
  = (Ret tt,
     [EGetpid; EFork rc]
     ++ (if background c then [EWrite 2 bg_single_msg]
         else EWait :: status_report 1 child_msg (wait_result w))).
Proof.
  intros H. destruct (pid_tests rc H) as [H1 H2].
  unfold run, run_cmds, status_report. cbn. unfold bind at 1. cbn.
  rewrite H1, H2.
  destruct (background c); cbn; [reflexivity|].
  destruct (snd (wait_result w) =? 0)%Z; reflexivity.
Qed.

Lemma run_pair_parent w a b rc rc2 fk :
  (0 < rc)%Z -> (0 < rc2)%Z ->
  run (run_cmds w [a; b]) (rc :: rc2 :: fk)
  = (Ret tt,
     [EPipe (fst (pipe_fds w)) (snd (pipe_fds w));
      ESetInheritable (fst (pipe_fds w)); ESetInheritable (snd (pipe_fds w));
      EGetpid; EFork rc; EClose (snd (pipe_fds w)); EWaitpid rc]
     ++ status_report 2 child1_msg (waitpid_result w rc)
     ++ [EFork rc2; EClose (fst (pipe_fds w))]
     ++ (if background b then [EWrite 2 bg_pipe_msg]
         else EWaitpid rc2 :: status_report 1 child2_msg (waitpid_result w rc2))).
Proof.
  intros H H'. destruct (pid_tests rc H) as [H1 H2].
  destruct (pid_tests rc2 H') as [H3 H4].
  unfold run, run_cmds, status_report. destruct (pipe_fds w) as [pr pw] eqn:Hp.
  cbn. unfold os_pipe. rewrite Hp. cbn. unfold bind at 1. cbn.
  rewrite H1, H2. cbn.
  destruct (snd (waitpid_result w rc) =? 0)%Z; cbn; rewrite H3, H4; cbn;
    destruct (background b); cbn; try reflexivity;
    destruct (snd (waitpid_result w rc2) =? 0)%Z; reflexivity.
Qed.

Lemma forks_ok_1 fk :
  forks_ok 1 fk = true -> exists rc fk', fk = rc :: fk' /\ (0 < rc)%Z.
Proof.
  unfold forks_ok. destruct fk as [|rc fk']; cbn; [discriminate|].
  rewrite andb_true_r. intros H. exists rc, fk'. split; [reflexivity|].
  apply Z.ltb_lt. exact H.
Qed.

Lemma forks_ok_2 fk :
  forks_ok 2 fk = true ->
  exists rc rc2 fk', fk = rc :: rc2 :: fk' /\ (0 < rc)%Z /\ (0 < rc2)%Z.
Proof.
  unfold forks_ok. destruct fk as [|rc [|rc2 fk']]; cbn; try discriminate.
  rewrite andb_true_r. intros H. apply andb_true_iff in H. destruct H as [H H'].
  exists rc, rc2, fk'. repeat split; apply Z.ltb_lt; assumption.
Qed.

Lemma since_last_fork_app tr e tl acc :
  is_fork e = true ->
  since_last_fork (tr ++ e :: tl) acc = since_last_fork tl [].
Proof.
  intros He. revert acc. induction tr as [|x tr IH]; intros acc; cbn.
  - rewrite He. reflexivity.
  - destruct (is_fork x); apply IH.
Qed.

Lemma writes_after_app a b : writes (a ++ b) = writes a ++ writes b.
Proof.
  induction a as [|e a IH]; [reflexivity|].
  destruct e; cbn; rewrite ?IH; reflexivity.
Qed.

(** [run_cmds] on two stages returns only in the parent of both children. *)
Lemma run_pair_returns w a b fk :
  fst (run (run_cmds w [a; b]) fk) = Ret tt -> forks_ok 2 fk = true.
Proof.
  unfold run. destruct (run_cmds w [a; b] (mkSt [] fk)) as [o st] eqn:E.
  cbn. intros Ho. subst o. revert E.
  unfold run_cmds. destruct (pipe_fds w) as [pr pw] eqn:Hp.
  cbn. unfold os_pipe. rewrite Hp. cbn. unfold bind at 1. cbn.
  destruct fk as [|rc fk]; cbn; [discriminate|].
  destruct (rc <? 0)%Z eqn:H1; [cbn; discriminate|].
  destruct (rc =? 0)%Z eqn:H2.
  { intros E. exfalso. revert E.
    apply no_return_bind_r. intros exe.
    apply no_return_bind_r. intros _.
    apply no_return_bind_r. intros _.
    apply execute_no_return. }
  cbn.
  assert (Hfork2 : forall st0,
    (rc2 <- os_fork;;
     if (rc2 <? 0)%Z then
       os_write 2 (lit "Second fork failed, returning " ++ dec rc ++ nl);;
       sys_exit 1
     else if (rc2 =? 0)%Z then
       exe2 <- lift (find_executable w b);;
       redirect w b;; os_dup2 pr 0;; os_close pr;; execute w exe2 b
     else
       os_close pr;;
       if background b then os_write 2 bg_pipe_msg
       else
         child2_status <- os_waitpid w rc2;;
         if negb (snd child2_status =? 0)%Z then
           os_write 1 (child2_msg (fst child2_status) (snd child2_status))
         else ret tt) st0 = (Ret tt, st) ->
    forks_ok 1 (forks st0) = true).
  { intros st0 E. apply bind_ret_inv in E. destruct E as (rc2 & st1 & E1 & E2).
    unfold os_fork in E1. destruct (forks st0) as [|r more] eqn:Hf; [discriminate|].
    inversion E1; subst r st1; clear E1.
    destruct (rc2 <? 0)%Z eqn:H3; [discriminate E2|].
    destruct (rc2 =? 0)%Z eqn:H4.
    { exfalso. revert E2.
      apply no_return_bind_r. intros exe.
      apply no_return_bind_r. intros _.
      apply no_return_bind_r. intros _.
      apply no_return_bind_r. intros _.
      apply execute_no_return. }
    unfold forks_ok. cbn. rewrite andb_true_r.
    apply Z.ltb_lt. apply Z.ltb_ge in H3. apply Z.eqb_neq in H4. lia. }
  intros E.
  assert (Hrc : (0 <? rc)%Z = true).
  { apply Z.ltb_lt. apply Z.ltb_ge in H1. apply Z.eqb_neq in H2. lia. }
  destruct (snd (waitpid_result w rc) =? 0)%Z; cbn in E;
    apply Hfork2 in E; cbn in E;
    apply forks_ok_1 in E; destruct E as (rc2 & fk' & -> & Hrc2);
    unfold forks_ok; cbn; rewrite Hrc; cbn; rewrite andb_true_r;
    apply Z.ltb_lt; exact Hrc2.
Qed.

(** ** Claims on the orchestrator *)

(** C1, as stated, fails: on three stages [run_cmds] raises at the unpacking
    of line 168, whereas on the first two of them it returns after creating
    two processes. *)
Lemma three_stages_raise :
  run (run_cmds sample_world [st_ls; st_wc; st_wc]) [100; 101]%Z
  = (Raise ValueError, [])
  /\ fst (run (run_cmds sample_world [st_ls; st_wc]) [100; 101]%Z) = Ret tt
  /\ filter is_fork (snd (run (run_cmds sample_world [st_ls; st_wc]) [100; 101]%Z))
     = [EFork 100; EFork 101].
Proof. vm_compute. repeat split. Qed.

(** C1 (amended): on a pipeline of more than two stages [run_cmds] executes
    no stage at all: the unpacking of line 168 raises [ValueError] before any
    system call, so the log is empty: no pipe, no process, no write. *)
Theorem more_than_two_stages_unsupported (w : World) (cmds : list Stage) (fk : list Z) :
  2 < List.length cmds ->
  run (run_cmds w cmds) fk = (Raise ValueError, []).
Proof.
  intros H. destruct cmds as [|a [|b [|c l]]]; cbn in H; try lia.
  reflexivity.
Qed.

Lemma more_than_two_stages_unsupported_witness :
  run (run_cmds sample_world [st_ls; st_wc; st_wc_bg]) [100; 101]%Z
  = (Raise ValueError, []).
Proof.
  apply (more_than_two_stages_unsupported sample_world [st_ls; st_wc; st_wc_bg]).
  cbn. lia.
Defined.

(** C2, as stated, fails: on the empty pipeline [run_cmds] does not return,
    it raises. *)
Lemma empty_pipeline_raises :
  fst (run (run_cmds sample_world []) [100; 101]%Z) <> Ret tt.
Proof. vm_compute. discriminate. Qed.

Lemma parser_loop_list n i rest acc evs l :
  parser_loop n i rest acc = (evs, PList l) -> evs = [].
Proof.
  revert i acc. induction rest as [|seg rest IH]; intros i acc; cbn [parser_loop].
  - intros H. inversion H. reflexivity.
  - destruct (endswith (strip seg) "&"%char).
    + destruct (i <? n - 1); [intros H; discriminate H|].
      destruct (redirections (strip (removelast (strip seg)))) as [[inp out] parts].
      apply IH.
    + destruct (redirections (strip seg)) as [[inp out] parts]. apply IH.
Qed.

(** C2 (amended): on the empty pipeline [run_cmds] creates no process and
    performs no write (its log is empty), but it does not return: the
    unpacking of line 168 raises [ValueError].  The no-op on an empty
    pipeline is the driver's: when the parser yields the empty list, the
    driver prints "no commands" (an empty line for an empty input) and does
    not call [run_cmds]. *)
Theorem empty_pipeline_guarded (w : World) (user_in : str) (fk : list Z) :
  snd (parser user_in) = PList [] ->
  startswith user_in (lit "exit") = false ->
  run (run_cmds w []) fk = (Raise ValueError, [])
  /\ run (shell_body w user_in) fk
     = (Ret tt, [EPrint (match user_in with [] => [] | _ => lit "no commands" end)]).
Proof.
  intros Hp Hexit. split; [reflexivity|].
  unfold run, shell_body. rewrite Hexit.
  destruct user_in as [|c0 u]; [reflexivity|].
  cbn [List.length Nat.eqb].
  destruct (parser (c0 :: u)) as [evs p] eqn:E. cbn in Hp. subst p.
  unfold parser in E. apply parser_loop_list in E. subst evs. reflexivity.
Qed.

Lemma empty_pipeline_guarded_witness :
  run (run_cmds sample_world []) [100]%Z = (Raise ValueError, [])
  /\ run (shell_body sample_world (lit " | ")) [100]%Z
     = (Ret tt, [EPrint (lit "no commands")]).
Proof.
  apply (empty_pipeline_guarded sample_world (lit " | ") [100]%Z); reflexivity.
Defined.

(** C6, as stated, fails: on a two-stage background pipeline the parent
    blocks in [os.waitpid] on stage 1 before it creates stage 2. *)
Lemma background_pipe_waits_stage1 :
  background st_wc_bg = true
  /\ fst (run (run_cmds sample_world [st_ls; st_wc_bg]) [100; 101]%Z) = Ret tt
  /\ filter is_wait (snd (run (run_cmds sample_world [st_ls; st_wc_bg]) [100; 101]%Z))
     = [EWaitpid 100].
Proof. vm_compute. repeat split. Qed.

(** C6 (amended): for every background pipeline of one or two stages the
    orchestrator never waits on the final process, and after creating it does
    nothing but close the read end of the pipe (two stages) and write the
    background notice before it returns.  A single-stage background pipeline
    waits on nothing; a two-stage one still blocks once, on stage 1, before
    stage 2 is created, whatever the background flag. *)
Theorem background_waits (w : World) (pre : list Stage) (c : Stage) (fk : list Z) :
  List.length pre <= 1 ->
  background c = true ->
  forks_ok (List.length (pre ++ [c])) fk = true ->
  let r := run (run_cmds w (pre ++ [c])) fk in
  fst r = Ret tt
  /\ filter is_wait (snd r)
     = match pre with [] => [] | _ => [EWaitpid (hd 0%Z fk)] end
  /\ since_last_fork (snd r) []
     = match pre with
       | [] => [EWrite 2 bg_single_msg]
       | _ => [EClose (fst (pipe_fds w)); EWrite 2 bg_pipe_msg]
       end.
Proof.
  intros Hlen Hbg Hfk. destruct pre as [|a [|? ?]]; cbn in Hlen; try lia.
  - cbn in Hfk. apply forks_ok_1 in Hfk. destruct Hfk as (rc & fk' & -> & Hrc).
    cbn [app]. cbv zeta. rewrite (run_single_parent w c rc fk' Hrc).
    rewrite Hbg. cbn. repeat split.
  - cbn in Hfk. apply forks_ok_2 in Hfk.
    destruct Hfk as (rc & rc2 & fk' & -> & Hrc & Hrc2).
    cbn [app]. cbv zeta. rewrite (run_pair_parent w a c rc rc2 fk' Hrc Hrc2).
    rewrite Hbg. unfold status_report.
    destruct (negb (snd (waitpid_result w rc) =? 0)%Z); cbn; repeat split.
Qed.

Lemma background_waits_witness :
  let r := run (run_cmds sample_world ([st_ls] ++ [st_wc_bg])) [100; 101]%Z in
  fst r = Ret tt
  /\ filter is_wait (snd r) = [EWaitpid 100]
  /\ since_last_fork (snd r) [] = [EClose 3; EWrite 2 bg_pipe_msg].
Proof.
  apply (background_waits sample_world [st_ls] st_wc_bg [100; 101]%Z).
  - cbn. lia.
  - reflexivity.
  - reflexivity.
Defined.

(** C7, as stated, fails: "ls | wc | wc &" parses to three stages, the last
    with the background flag set, and on them [run_cmds] raises at the
    unpacking of line 168: no notice is written and it does not return. *)
Lemma three_stage_background_raises :
  parser (lit "ls | wc | wc &") = ([], PList [st_ls; st_wc; st_wc_bg])
  /\ background st_wc_bg = true
  /\ run (run_cmds sample_world [st_ls; st_wc; st_wc_bg]) [100; 101; 102]%Z
     = (Raise ValueError, []).
Proof. vm_compute. repeat split. Qed.

(** C7 (amended): for every pipeline of one or two stages whose final stage
    has the background flag set, the parent (each [os.fork] returning a
    child's pid) writes a background notice to descriptor 2 and returns, and
    no wait ([os.waitpid] or [os.wait]) follows the creation of the last
    process.  On two stages the notice comes only after the blocking
    [os.waitpid] on stage 1 has answered: nothing is written before that
    wait.  On more than two stages [run_cmds] raises [ValueError] before any
    system call, so no notice is written. *)
Theorem background_notice_no_wait (w : World) (pre : list Stage) (c : Stage) (fk : list Z) :
  background c = true ->
  (2 <= List.length pre ->
   run (run_cmds w (pre ++ [c])) fk = (Raise ValueError, []))
  /\ (List.length pre <= 1 ->
      forks_ok (List.length (pre ++ [c])) fk = true ->
      let r := run (run_cmds w (pre ++ [c])) fk in
      fst r = Ret tt
      /\ In (2%Z, match pre with [] => bg_single_msg | _ => bg_pipe_msg end)
            (writes (snd r))
      /\ filter is_wait (since_last_fork (snd r) []) = []
      /\ filter is_fork (snd r) = map EFork (firstn (List.length (pre ++ [c])) fk)
      /\ (List.length pre = 1 ->
          exists before after,
            snd r = before ++ EWaitpid (hd 0%Z fk) :: after
            /\ writes before = []
            /\ filter is_wait before = []
            /\ In (2%Z, bg_pipe_msg) (writes after))).
Proof.
  intros Hbg. split.
  - intros Hlen. destruct pre as [|a [|b pre']]; cbn in Hlen; try lia.
    destruct pre'; reflexivity.
  - intros Hlen Hfk. destruct pre as [|a [|? ?]]; cbn in Hlen; try lia.
    + cbn in Hfk. apply forks_ok_1 in Hfk. destruct Hfk as (rc & fk' & -> & Hrc).
      cbn [app]. cbv zeta. rewrite (run_single_parent w c rc fk' Hrc).
      rewrite Hbg. cbn. repeat split; [left; reflexivity | discriminate].
    + cbn in Hfk. apply forks_ok_2 in Hfk.
      destruct Hfk as (rc & rc2 & fk' & -> & Hrc & Hrc2).
      cbn [app]. cbv zeta. rewrite (run_pair_parent w a c rc rc2 fk' Hrc Hrc2).
      rewrite Hbg. cbn [fst snd hd].
      assert (Hlog :
        ([EPipe (fst (pipe_fds w)) (snd (pipe_fds w));
          ESetInheritable (fst (pipe_fds w)); ESetInheritable (snd (pipe_fds w));
          EGetpid; EFork rc; EClose (snd (pipe_fds w)); EWaitpid rc]
         ++ status_report 2 child1_msg (waitpid_result w rc)
         ++ [EFork rc2; EClose (fst (pipe_fds w))] ++ [EWrite 2 bg_pipe_msg])
        = [EPipe (fst (pipe_fds w)) (snd (pipe_fds w));
           ESetInheritable (fst (pipe_fds w)); ESetInheritable (snd (pipe_fds w));
           EGetpid; EFork rc; EClose (snd (pipe_fds w))]
          ++ EWaitpid rc
             :: (status_report 2 child1_msg (waitpid_result w rc)
                 ++ [EFork rc2; EClose (fst (pipe_fds w)); EWrite 2 bg_pipe_msg]))
        by reflexivity.
      split; [reflexivity|]. split; [|split; [|split]].
      * unfold status_report.
        destruct (negb (snd (waitpid_result w rc) =? 0)%Z); cbn; auto.
      * unfold status_report.
        destruct (negb (snd (waitpid_result w rc) =? 0)%Z); reflexivity.
      * unfold status_report.
        destruct (negb (snd (waitpid_result w rc) =? 0)%Z); reflexivity.
      * intros _.
        exists [EPipe (fst (pipe_fds w)) (snd (pipe_fds w));
                ESetInheritable (fst (pipe_fds w));
                ESetInheritable (snd (pipe_fds w)); EGetpid; EFork rc;
                EClose (snd (pipe_fds w))],
               (status_report 2 child1_msg (waitpid_result w rc)
                ++ [EFork rc2; EClose (fst (pipe_fds w)); EWrite 2 bg_pipe_msg]).
        split; [exact Hlog|]. split; [reflexivity|]. split; [reflexivity|].
        rewrite writes_after_app. apply in_or_app. right. left. reflexivity.
Qed.

Lemma background_notice_no_wait_witness :
  let r := run (run_cmds sample_world ([st_ls] ++ [st_wc_bg])) [100; 101]%Z in
  fst r = Ret tt
  /\ In (2%Z, bg_pipe_msg) (writes (snd r))
  /\ filter is_wait (since_last_fork (snd r) []) = []
  /\ filter is_fork (snd r) = [EFork 100; EFork 101]
  /\ (List.length [st_ls] = 1 ->
      exists before after,
        snd r = before ++ EWaitpid 100 :: after
        /\ writes before = []
        /\ filter is_wait before = []
        /\ In (2%Z, bg_pipe_msg) (writes after)).
Proof.
  destruct (background_notice_no_wait sample_world [st_ls] st_wc_bg [100; 101]%Z
              eq_refl) as [_ H].
  apply H.
  - cbn. lia.
  - reflexivity.
Defined.

(** C8: in the parent, the writes of [run_cmds] are exactly these.  Two
    stages: when [os.waitpid] on stage 1 reports a non-zero status, a message
    with the reported pid and status on descriptor 2; then, in the
    foreground, when [os.waitpid] on stage 2 reports a non-zero status, a
    message with its pid and status on descriptor 1.  One stage, foreground:
    when [os.wait] reports a non-zero status, a message with the reported pid
    and status on descriptor 1.  A zero status writes nothing. *)
Theorem exit_status_diagnostics (w : World) (a b c : Stage) (rc rc2 : Z) (fk : list Z) :
  (0 < rc)%Z -> (0 < rc2)%Z ->
  let report (fd : Z) (msg : Z -> Z -> str) (r : Z * Z) :=
    if (snd r =? 0)%Z then [] else [(fd, msg (fst r) (snd r))] in
  writes (snd (run (run_cmds w [a; b]) (rc :: rc2 :: fk)))
  = report 2%Z child1_msg (waitpid_result w rc)
    ++ (if background b then [(2%Z, bg_pipe_msg)]
        else report 1%Z child2_msg (waitpid_result w rc2))
  /\ writes (snd (run (run_cmds w [c]) (rc :: fk)))
     = (if background c then [(2%Z, bg_single_msg)]
        else report 1%Z child_msg (wait_result w))
  /\ (forall pid status,
        child1_msg pid status
        = lit "Parent: Child 1 " ++ dec pid ++ lit " terminated with exit code "
          ++ dec status ++ nl
        /\ child2_msg pid status
           = lit "Parent: Child 2 " ++ dec pid ++ lit " terminated with exit code "
             ++ dec status ++ nl
        /\ child_msg pid status
           = lit "Parent: Child " ++ dec pid ++ lit " terminated with exit code "
             ++ dec status ++ nl).
Proof.
  intros Hrc Hrc2. cbv zeta. split; [|split].
  - rewrite (run_pair_parent w a b rc rc2 fk Hrc Hrc2). unfold status_report.
    destruct (snd (waitpid_result w rc) =? 0)%Z; cbn;
      destruct (background b); cbn; try reflexivity;
      destruct (snd (waitpid_result w rc2) =? 0)%Z; reflexivity.
  - rewrite (run_single_parent w c rc fk Hrc). unfold status_report.
    destruct (background c); cbn; [reflexivity|].
    destruct (snd (wait_result w) =? 0)%Z; reflexivity.
  - intros pid status. repeat split.
Qed.

Lemma exit_status_diagnostics_witness :
  writes (snd (run (run_cmds sample_world [st_ls; st_wc]) [100; 101; 102]%Z))
  = [(2%Z, lit "Parent: Child 1 100 terminated with exit code 256" ++ nl);
     (1%Z, lit "Parent: Child 2 101 terminated with exit code 256" ++ nl)]
  /\ writes (snd (run (run_cmds sample_world [st_ls]) [100; 102]%Z))
     = [(1%Z, lit "Parent: Child 100 terminated with exit code 512" ++ nl)].
Proof.
  destruct (exit_status_diagnostics sample_world st_ls st_wc st_ls 100 101 [102]%Z)
    as (H1 & H2 & _); [lia | lia |].
  split; [exact H1 | exact H2].
Defined.

(** C9: whenever [run_cmds] returns from a two-stage pipeline, foreground or
    background, its log holds exactly one [os.pipe], and neither end of that
    pipe is open any more in the process that returns. *)
Theorem pipe_closed_on_return (w : World) (a b : Stage) (fk : list Z) :
  fst (run (run_cmds w [a; b]) fk) = Ret tt ->
  let tr := snd (run (run_cmds w [a; b]) fk) in
  filter is_pipe tr = [EPipe (fst (pipe_fds w)) (snd (pipe_fds w))]
  /\ fd_open tr (fst (pipe_fds w)) false = false
  /\ fd_open tr (snd (pipe_fds w)) false = false
  /\ In (EClose (fst (pipe_fds w))) tr
  /\ In (EClose (snd (pipe_fds w))) tr.
Proof.
  intros Hret. apply run_pair_returns in Hret. apply forks_ok_2 in Hret.
  destruct Hret as (rc & rc2 & fk' & -> & Hrc & Hrc2). cbv zeta.
  rewrite (run_pair_parent w a b rc rc2 fk' Hrc Hrc2). unfold status_report.
  destruct (pipe_fds w) as [pr pw].
  destruct (negb (snd (waitpid_result w rc) =? 0)%Z);
    destruct (background b);
    try destruct (negb (snd (waitpid_result w rc2) =? 0)%Z);
    cbn; rewrite ?Z.eqb_refl, ?orb_true_r, ?andb_false_r; cbn;
    rewrite ?andb_false_r; repeat split; auto 12.
Qed.

Lemma pipe_closed_on_return_witness :
  let tr := snd (run (run_cmds sample_world [st_ls; st_wc_bg]) [100; 101]%Z) in
  filter is_pipe tr = [EPipe 3 4]
  /\ fd_open tr 3%Z false = false
  /\ fd_open tr 4%Z false = false
  /\ In (EClose 3) tr
  /\ In (EClose 4) tr.
Proof.
  apply (pipe_closed_on_return sample_world st_ls st_wc_bg [100; 101]%Z).
  reflexivity.
Defined.

(** ** The resolver *)

Lemma has_nul_app a b : has_nul (a ++ b) = has_nul a || has_nul b.
Proof. unfold has_nul. apply existsb_app. Qed.

Lemma has_nul_join e name :
  has_nul (path_join e name)
  = if isabs name then has_nul name else has_nul e || has_nul name.
Proof.
  unfold path_join. destruct (isabs name); [reflexivity|].
  destruct e as [|x e]; [reflexivity|].
  destruct (endswith (x :: e) "/"%char); rewrite !has_nul_app; [reflexivity|].
  reflexivity.
Qed.

Lemma join_clean e name :
  has_nul name = false -> has_nul e = false -> has_nul (path_join e name) = false.
Proof.
  intros Hn He. rewrite has_nul_join, Hn, He. destruct (isabs name); reflexivity.
Qed.

Lemma join_nul e name : has_nul name = true -> has_nul (path_join e name) = true.
Proof.
  intros Hn. rewrite has_nul_join, Hn, orb_true_r. destruct (isabs name); reflexivity.
Qed.

Lemma split_on_clean sep s : forall cur,
  has_nul s = false -> has_nul cur = false ->
  Forall (fun e => has_nul e = false) (split_on sep s cur).
Proof.
  induction s as [|c s IH]; intros cur Hs Hcur; cbn [split_on].
  - constructor; [exact Hcur | constructor].
  - cbn in Hs. apply orb_false_iff in Hs. destruct Hs as [Hc Hs].
    destruct (Ascii.eqb c sep).
    + constructor; [exact Hcur | apply IH; [exact Hs | reflexivity]].
    + apply IH; [exact Hs|]. rewrite has_nul_app, Hcur. cbn. rewrite Hc. reflexivity.
Qed.

Lemma split_on_head sep s cur : exists e l, split_on sep s cur = e :: l.
Proof.
  revert cur. induction s as [|c s IH]; intros cur; cbn [split_on].
  - exists cur, []. reflexivity.
  - destruct (Ascii.eqb c sep); [|apply IH].
    exists cur, (split_on sep s []). reflexivity.
Qed.

Lemma search_paths_step w x l name :
  has_nul (path_join x name) = false ->
  search_paths w (x :: l) name
  = if access_x w (path_join x name) then Ret (Some (path_join x name))
    else search_paths w l name.
Proof.
  intros H. cbn [search_paths]. unfold os_access. rewrite H.
  destruct (access_x w (path_join x name)); reflexivity.
Qed.

Lemma search_paths_nul w x l name :
  has_nul (path_join x name) = true ->
  search_paths w (x :: l) name = Raise ValueError.
Proof. intros H. cbn [search_paths]. unfold os_access. rewrite H. reflexivity. Qed.

Lemma search_paths_first w name pre e post :
  has_nul name = false ->
  Forall (fun x => has_nul x = false) (pre ++ e :: post) ->
  Forall (fun x => access_x w (path_join x name) = false) pre ->
  access_x w (path_join e name) = true ->
  search_paths w (pre ++ e :: post) name = Ret (Some (path_join e name)).
Proof.
  intros Hn Hclean Hpre He. induction Hpre as [|x pre Hx _ IH]; cbn [app] in *.
  - inversion Hclean as [|? ? Hc _]; subst.
    rewrite (search_paths_step _ _ _ _ (join_clean _ _ Hn Hc)), He. reflexivity.
  - inversion Hclean as [|? ? Hc Hrest]; subst.
    rewrite (search_paths_step _ _ _ _ (join_clean _ _ Hn Hc)), Hx.
    apply IH. exact Hrest.
Qed.

Lemma search_paths_none w name entries :
  has_nul name = false ->
  Forall (fun x => has_nul x = false) entries ->
  Forall (fun x => access_x w (path_join x name) = false) entries ->
  search_paths w entries name = Ret None.
Proof.
  intros Hn Hclean Hall. induction Hall as [|x l Hx _ IH]; [reflexivity|].
  inversion Hclean as [|? ? Hc Hrest]; subst.
  rewrite (search_paths_step _ _ _ _ (join_clean _ _ Hn Hc)), Hx.
  apply IH. exact Hrest.
Qed.

(** C5, as stated, fails.  The name [/ls] is absolute and not executable,
    and [/bin//ls], the first entry, a slash and the name, is executable: yet
    [find_executable] returns [None], because [os.path.join] drops the entry
    before an absolute name.  And with an empty entry in the search path the
    name [ls] is found in the current directory and returned as it is,
    though no entry followed by a slash and the name is executable. *)
Lemma joined_path_differs :
  (isabs (cmd st_abs) && access_x slash_world (cmd st_abs) = false
   /\ env_path slash_world = Some (lit "/bin")
   /\ split_on ":"%char (lit "/bin") [] = [lit "/bin"]
   /\ access_x slash_world (spec_candidate (lit "/bin") (cmd st_abs)) = true
   /\ find_executable slash_world st_abs = Ret None)
  /\ (env_path cwd_world = Some (lit "/usr/bin:")
      /\ split_on ":"%char (lit "/usr/bin:") [] = [lit "/usr/bin"; []]
      /\ Forall (fun e => access_x cwd_world (spec_candidate e (cmd st_ls)) = false)
                [lit "/usr/bin"; []]
      /\ find_executable cwd_world st_ls = Ret (Some (lit "ls"))).
Proof.
  split.
  - repeat split; vm_compute; reflexivity.
  - repeat split; try (vm_compute; reflexivity).
    repeat constructor.
Qed.

(** C5 (amended): with the search-path variable set to a value without NUL
    character, [find_executable] raises [ValueError] on a name that holds a
    NUL character ([os.access] refuses the path).  On every other name it
    returns the name itself when it is absolute and executable; otherwise,
    with the search path split on ":", it returns
    [os.path.join(entry, name)] for the first entry, in order, whose joined
    path is executable, and [None] when there is none.  The joined path is
    the entry, a slash and the name for a non-empty entry without a final
    slash and a relative name; it is the name alone when the name is
    absolute or the entry is empty, and the entry followed by the name when
    the entry ends with a slash. *)
Theorem find_executable_resolves (w : World) (c : Stage) (p : str) :
  env_path w = Some p ->
  has_nul p = false ->
  (has_nul (cmd c) = true -> find_executable w c = Raise ValueError)
  /\ (has_nul (cmd c) = false ->
      (isabs (cmd c) = true -> access_x w (cmd c) = true ->
       find_executable w c = Ret (Some (cmd c)))
      /\ (forall pre e post,
            isabs (cmd c) && access_x w (cmd c) = false ->
            split_on ":"%char p [] = pre ++ e :: post ->
            Forall (fun x => access_x w (path_join x (cmd c)) = false) pre ->
            access_x w (path_join e (cmd c)) = true ->
            find_executable w c = Ret (Some (path_join e (cmd c))))
      /\ (isabs (cmd c) && access_x w (cmd c) = false ->
          Forall (fun x => access_x w (path_join x (cmd c)) = false)
                 (split_on ":"%char p []) ->
          find_executable w c = Ret None))
  /\ (forall e,
        path_join e (cmd c)
        = if isabs (cmd c) then cmd c
          else match e with
               | [] => cmd c
               | _ => if endswith e "/"%char then e ++ cmd c
                      else spec_candidate e (cmd c)
               end).
Proof.
  intros Henv Hp.
  pose proof (split_on_clean ":"%char p [] Hp eq_refl) as Hclean.
  split; [|split].
  - intros Hn. unfold find_executable, os_access. rewrite Hn, Henv.
    destruct (isabs (cmd c)); [reflexivity|].
    destruct (split_on_head ":"%char p []) as (e & l & ->).
    apply search_paths_nul. apply join_nul. exact Hn.
  - intros Hn.
    assert (Hsearch : isabs (cmd c) && access_x w (cmd c) = false ->
              find_executable w c
              = search_paths w (split_on ":"%char p []) (cmd c)).
    { intros Hno. unfold find_executable, os_access. rewrite Hn, Henv.
      destruct (isabs (cmd c)); [|reflexivity].
      cbn [andb] in Hno. rewrite Hno. reflexivity. }
    split; [|split].
    + intros H1 H2. unfold find_executable, os_access. rewrite H1, Hn, H2.
      reflexivity.
    + intros pre e post Hno Hsplit Hpre He. rewrite (Hsearch Hno), Hsplit.
      rewrite Hsplit in Hclean.
      exact (search_paths_first w (cmd c) pre e post Hn Hclean Hpre He).
    + intros Hno Hall. rewrite (Hsearch Hno).
      exact (search_paths_none w (cmd c) _ Hn Hclean Hall).
  - intros e. reflexivity.
Qed.

Lemma find_executable_resolves_witness :
  find_executable path_world st_ls = Ret (Some (lit "/bin/ls"))
  /\ find_executable path_world st_nul = Raise ValueError
  /\ path_join (lit "/bin") (cmd st_ls) = spec_candidate (lit "/bin") (cmd st_ls).
Proof.
  destruct (find_executable_resolves path_world st_ls (lit "/usr/bin:/bin")
              eq_refl eq_refl) as (_ & H2 & H4).
  destruct (H2 eq_refl) as (_ & H3 & _).
  destruct (find_executable_resolves path_world st_nul (lit "/usr/bin:/bin")
              eq_refl eq_refl) as (H1 & _).
  split; [|split].
  - apply (H3 [lit "/usr/bin"] (lit "/bin") []).
    + reflexivity.
    + reflexivity.
    + constructor; [reflexivity | constructor].
    + reflexivity.
  - apply H1. reflexivity.
  - exact (H4 (lit "/bin")).
Defined.

(** ** The parser: the background marker *)

Lemma parser_loop_background n rest : forall i acc k,
  i + List.length rest = n ->
  k + 1 < List.length rest ->
  endswith (strip (nth k rest [])) "&"%char = true ->
  parser_loop n i rest acc = ([EWrite 2 syntax_error_msg], PFalse).
Proof.
  induction rest as [|seg rest IH]; intros i acc k Hn Hk Hend.
  - cbn in Hk. lia.
  - cbn [parser_loop]. cbn [List.length] in Hn, Hk.
    destruct (endswith (strip seg) "&"%char) eqn:E.
    + assert (Hi : (i <? n - 1) = true) by (apply Nat.ltb_lt; lia).
      rewrite Hi. reflexivity.
    + destruct k as [|k]; [cbn [nth] in Hend; congruence|].
      cbn [nth] in Hend.
      destruct (redirections (strip seg)) as [[inp out] parts].
      apply (IH (S i) _ k); [lia | lia | exact Hend].
Qed.

(** C3: when a segment other than the last ends, once stripped, with "&",
    [parser] writes the diagnostic to descriptor 2 and returns [False]: no
    list of stages, not even a partial one.  The driver then creates no
    process: its log holds no [os.fork]. *)
Theorem background_marker_before_pipe (line : str) (k : nat) :
  k + 1 < List.length (split_on "|"%char line []) ->
  endswith (strip (nth k (split_on "|"%char line []) [])) "&"%char = true ->
  parser line = ([EWrite 2 syntax_error_msg], PFalse)
  /\ forall w fk, filter is_fork (snd (run (shell_body w line) fk)) = [].
Proof.
  intros Hk Hend.
  assert (Hp : parser line = ([EWrite 2 syntax_error_msg], PFalse)).
  { unfold parser. apply (parser_loop_background _ _ 0 [] k);
      [reflexivity | exact Hk | exact Hend]. }
  split; [exact Hp|].
  intros w fk. unfold run, shell_body.
  destruct (startswith line (lit "exit")); [reflexivity|].
  destruct line as [|c0 l]; [reflexivity|].
  cbn [List.length Nat.eqb]. rewrite Hp. reflexivity.
Qed.

Lemma background_marker_before_pipe_witness :
  parser (lit "cmd1 & | cmd2") = ([EWrite 2 syntax_error_msg], PFalse)
  /\ forall w fk,
       filter is_fork (snd (run (shell_body w (lit "cmd1 & | cmd2")) fk)) = [].
Proof.
  apply (background_marker_before_pipe (lit "cmd1 & | cmd2") 0).
  - vm_compute. lia.
  - vm_compute. reflexivity.
Defined.

(** ** The parser: characters and strings *)

Lemma isspace_not_special c :
  isspace c = true ->
  is_marker c = false /\ Ascii.eqb c "|"%char = false /\ Ascii.eqb c "&"%char = false.
Proof.
  destruct c as [[] [] [] [] [] [] [] []]; vm_compute; intros H;
    try discriminate H; repeat split.
Qed.

Lemma marker_not_special c :
  is_marker c = true ->
  isspace c = false /\ Ascii.eqb c "|"%char = false /\ Ascii.eqb c "&"%char = false.
Proof.
  destruct c as [[] [] [] [] [] [] [] []]; vm_compute; intros H;
    try discriminate H; repeat split.
Qed.

Lemma plain_char_inv c :
  plain_char c = true ->
  isspace c = false /\ is_marker c = false
  /\ Ascii.eqb c "|"%char = false /\ Ascii.eqb c "&"%char = false.
Proof.
  unfold plain_char. intros H.
  repeat (apply andb_true_iff in H; destruct H as [H ?]).
  repeat split; apply negb_true_iff; assumption.
Qed.

Lemma plain_inv w :
  plain w = true -> w <> [] /\ forallb plain_char w = true.
Proof.
  destruct w; cbn [plain]; intros H; [discriminate H|].
  split; [discriminate | exact H].
Qed.

Lemma lstrip_blank s x : blank s = true -> lstrip (s ++ x) = lstrip x.
Proof.
  induction s as [|c s IH]; cbn; [reflexivity|].
  intros H. apply andb_true_iff in H. destruct H as [Hc Hs].
  rewrite Hc. apply IH. exact Hs.
Qed.

Lemma lstrip_solid c s : isspace c = false -> lstrip (c :: s) = c :: s.
Proof. intros H. cbn. rewrite H. reflexivity. Qed.

Lemma rstrip_last_solid s : last_solid s = true -> rstrip s = s.
Proof.
  induction s as [|c s IH]; [discriminate|].
  destruct s as [|d s].
  - cbn. intros H. apply andb_true_iff in H. destruct H as [H _].
    apply negb_true_iff in H. rewrite H. reflexivity.
  - intros H. change (last_solid (c :: d :: s)) with (last_solid (d :: s)) in H.
    specialize (IH H). cbn [rstrip] in *. rewrite IH. reflexivity.
Qed.

Lemma endswith_last_solid s : last_solid s = true -> endswith s "&"%char = false.
Proof.
  induction s as [|c s IH]; [discriminate|].
  destruct s as [|d s].
  - cbn. intros H. apply andb_true_iff in H. destruct H as [_ H].
    apply negb_true_iff in H. exact H.
  - intros H. change (last_solid (c :: d :: s)) with (last_solid (d :: s)) in H.
    change (endswith (c :: d :: s) "&"%char) with (endswith (d :: s) "&"%char).
    apply IH. exact H.
Qed.

Lemma last_solid_app a b : b <> [] -> last_solid (a ++ b) = last_solid b.
Proof.
  intros Hb. induction a as [|x a IH]; [reflexivity|].
  cbn [app]. destruct (a ++ b) eqn:E.
  - apply app_eq_nil in E. destruct E as [_ E]. contradiction.
  - rewrite <- IH. reflexivity.
Qed.

Lemma last_solid_plain w : plain w = true -> last_solid w = true.
Proof.
  intros H. apply plain_inv in H. destruct H as [Hne Hall].
  induction w as [|c w IH]; [contradiction|].
  cbn [forallb] in Hall. apply andb_true_iff in Hall. destruct Hall as [Hc Hw].
  destruct w as [|d w].
  - apply plain_char_inv in Hc. destruct Hc as (H1 & _ & _ & H4).
    cbn. rewrite H1, H4. reflexivity.
  - change (last_solid (c :: d :: w)) with (last_solid (d :: w)).
    apply IH; [discriminate | exact Hw].
Qed.

Lemma split_on_none sep s : forall cur,
  forallb (fun c => negb (Ascii.eqb c sep)) s = true ->
  split_on sep s cur = [cur ++ s].
Proof.
  induction s as [|c s IH]; intros cur H; cbn.
  - rewrite app_nil_r. reflexivity.
  - cbn in H. apply andb_true_iff in H. destruct H as [Hc Hs].
    apply negb_true_iff in Hc. rewrite Hc, (IH _ Hs), <- app_assoc. reflexivity.
Qed.

(** ** The parser: [str.split()] *)

Lemma split_ws_lstrip s : split_ws (lstrip s) [] = split_ws s [].
Proof.
  induction s as [|c s IH]; [reflexivity|].
  cbn. destruct (isspace c) eqn:E; [exact IH|].
  cbn. rewrite E. reflexivity.
Qed.

Lemma split_ws_rstrip s : forall cur, split_ws (rstrip s) cur = split_ws s cur.
Proof.
  induction s as [|c s IH]; intros cur; [reflexivity|].
  cbn [rstrip]. destruct (rstrip s) as [|d r] eqn:E.
  - destruct (isspace c) eqn:Hc; cbn; rewrite Hc.
    + rewrite <- IH. cbn. rewrite app_nil_r. reflexivity.
    + rewrite <- IH. reflexivity.
  - cbn [split_ws]. destruct (isspace c); rewrite <- IH; reflexivity.
Qed.

Lemma split_ws_strip s : split_ws (strip s) [] = split_ws s [].
Proof. unfold strip. rewrite split_ws_rstrip. apply split_ws_lstrip. Qed.

Lemma split_ws_blank s x : blank s = true -> split_ws (s ++ x) [] = split_ws x [].
Proof.
  induction s as [|c s IH]; cbn; [reflexivity|].
  intros H. apply andb_true_iff in H. destruct H as [Hc Hs].
  rewrite Hc. apply IH. exact Hs.
Qed.

Lemma split_ws_word w x : forall cur,
  forallb nonspace w = true -> split_ws (w ++ x) cur = split_ws x (cur ++ w).
Proof.
  induction w as [|c w IH]; intros cur H; cbn.
  - rewrite app_nil_r. reflexivity.
  - cbn in H. apply andb_true_iff in H. destruct H as [Hc Hw].
    apply negb_true_iff in Hc. rewrite Hc, (IH _ Hw), <- app_assoc. reflexivity.
Qed.

Lemma split_ws_flush x cur :
  cur <> [] -> starts_blank x = true -> split_ws x cur = cur :: split_ws x [].
Proof.
  intros Hcur Hx. destruct x as [|c x]; cbn.
  - destruct cur; [contradiction | reflexivity].
  - cbn in Hx. rewrite Hx. destruct cur; [contradiction | reflexivity].
Qed.

Lemma split_ws_token sep w x :
  blank sep = true -> w <> [] -> forallb nonspace w = true ->
  starts_blank x = true ->
  split_ws (sep ++ w ++ x) [] = w :: split_ws x [].
Proof.
  intros Hsep Hne Hw Hx.
  rewrite (split_ws_blank _ _ Hsep), (split_ws_word _ _ _ Hw). cbn [app].
  apply split_ws_flush; assumption.
Qed.

(** ** The parser: the regular expressions *)

Lemma take_nonspace_split s : forall p r,
  take_nonspace s = (p, r) -> s = p ++ r.
Proof.
  induction s as [|c s IH]; intros p r; cbn.
  - intros H. inversion H. reflexivity.
  - destruct (isspace c).
    + intros H. inversion H. reflexivity.
    + destruct (take_nonspace s) as [p' r'] eqn:E. intros H. inversion H. subst.
      cbn. f_equal. apply IH. reflexivity.
Qed.

Lemma lstrip_length s : List.length (lstrip s) <= List.length s.
Proof.
  induction s as [|c s IH]; cbn; [lia|].
  destruct (isspace c); cbn; lia.
Qed.

Lemma match_path_length s p r :
  match_path s = Some (p, r) -> List.length r <= List.length s.
Proof.
  unfold match_path. destruct (take_nonspace (lstrip s)) as [p' r'] eqn:E.
  apply take_nonspace_split in E.
  assert (Hlen : List.length r' <= List.length s).
  { pose proof (lstrip_length s) as H. rewrite E, length_app in H. lia. }
  destruct p'; intros H; inversion H; subst; exact Hlen.
Qed.

Lemma re_sub_fuel_enough n : forall m s,
  List.length s <= n -> List.length s <= m -> re_sub_fuel n s = re_sub_fuel m s.
Proof.
  induction n as [|n IH]; intros m s Hn Hm.
  - destruct s; [|cbn in Hn; lia]. destruct m; reflexivity.
  - destruct m as [|m].
    + destruct s; [reflexivity | cbn in Hm; lia].
    + destruct s as [|c t]; [reflexivity|]. cbn in Hn, Hm. cbn [re_sub_fuel].
      destruct (is_marker c).
      * destruct (match_path t) as [[p r]|] eqn:E.
        -- apply match_path_length in E. apply IH; lia.
        -- f_equal. apply IH; lia.
      * f_equal. apply IH; lia.
Qed.

(** The equation of [re_sub]: the fuel is enough. *)
Lemma re_sub_cons c t :
  re_sub (c :: t)
  = if is_marker c then
      match match_path t with
      | Some (_, r) => re_sub r
      | None => c :: re_sub t
      end
    else c :: re_sub t.
Proof.
  unfold re_sub. cbn [List.length re_sub_fuel].
  destruct (is_marker c).
  - destruct (match_path t) as [[p r]|] eqn:E.
    + apply match_path_length in E. apply re_sub_fuel_enough; lia.
    + reflexivity.
  - reflexivity.
Qed.

Lemma re_sub_nil : re_sub [] = [].
Proof. reflexivity. Qed.

Lemma re_sub_skip u x :
  forallb (fun c => negb (is_marker c)) u = true -> re_sub (u ++ x) = u ++ re_sub x.
Proof.
  induction u as [|c u IH]; cbn [app forallb]; [reflexivity|].
  intros H. apply andb_true_iff in H. destruct H as [Hc Hu].
  apply negb_true_iff in Hc. rewrite re_sub_cons, Hc, (IH Hu). reflexivity.
Qed.

Lemma re_search_skip m u x :
  forallb (fun c => negb (Ascii.eqb c m)) u = true ->
  re_search m (u ++ x) = re_search m x.
Proof.
  induction u as [|c u IH]; cbn [app forallb]; [reflexivity|].
  intros H. apply andb_true_iff in H. destruct H as [Hc Hu].
  apply negb_true_iff in Hc. cbn [re_search]. rewrite Hc. apply IH. exact Hu.
Qed.

Lemma take_nonspace_word w x :
  forallb nonspace w = true -> starts_blank x = true ->
  take_nonspace (w ++ x) = (w, x).
Proof.
  intros Hw Hx. induction w as [|c w IH]; cbn [app].
  - destruct x as [|d x]; [reflexivity|]. cbn in Hx. cbn. rewrite Hx. reflexivity.
  - cbn in Hw. apply andb_true_iff in Hw. destruct Hw as [Hc Hw].
    apply negb_true_iff in Hc. cbn. rewrite Hc, (IH Hw). reflexivity.
Qed.

(** A clause whose path is followed by whitespace or by nothing matches, and
    group 1 is the path. *)
Lemma match_path_clause gap path x :
  blank gap = true -> path <> [] -> forallb nonspace path = true ->
  starts_blank x = true ->
  match_path (gap ++ path ++ x) = Some (path, x).
Proof.
  intros Hgap Hne Hpath Hx. unfold match_path.
  rewrite (lstrip_blank _ _ Hgap).
  destruct path as [|c path]; [contradiction|].
  assert (Hc : isspace c = false).
  { cbn in Hpath. apply andb_true_iff in Hpath. destruct Hpath as [Hc _].
    apply negb_true_iff in Hc. exact Hc. }
  cbn [app]. rewrite (lstrip_solid _ _ Hc).
  change (c :: path ++ x) with ((c :: path) ++ x).
  rewrite (take_nonspace_word _ _ Hpath Hx). reflexivity.
Qed.

Lemma match_path_nil : match_path [] = None.
Proof. reflexivity. Qed.

(** ** The parser on the grammar *)

Lemma blank_no_marker s :
  blank s = true -> forallb (fun c => negb (is_marker c)) s = true.
Proof.
  induction s as [|c s IH]; cbn; [reflexivity|].
  intros H. apply andb_true_iff in H. destruct H as [Hc Hs].
  apply isspace_not_special in Hc. destruct Hc as (Hc & _ & _).
  rewrite Hc. cbn. apply IH. exact Hs.
Qed.

Lemma plain_chars_no_marker w :
  forallb plain_char w = true -> forallb (fun c => negb (is_marker c)) w = true.
Proof.
  induction w as [|c w IH]; cbn; [reflexivity|].
  intros H. apply andb_true_iff in H. destruct H as [Hc Hs].
  apply plain_char_inv in Hc. destruct Hc as (_ & Hc & _ & _).
  rewrite Hc. cbn. apply IH. exact Hs.
Qed.

Lemma plain_chars_nonspace w :
  forallb plain_char w = true -> forallb nonspace w = true.
Proof.
  induction w as [|c w IH]; cbn; [reflexivity|].
  intros H. apply andb_true_iff in H. destruct H as [Hc Hs].
  apply plain_char_inv in Hc. destruct Hc as (Hc & _ & _ & _).
  unfold nonspace at 1. rewrite Hc. cbn. apply IH. exact Hs.
Qed.

Lemma no_marker_not m u :
  is_marker m = true ->
  forallb (fun c => negb (is_marker c)) u = true ->
  forallb (fun c => negb (Ascii.eqb c m)) u = true.
Proof.
  intros Hm. induction u as [|c u IH]; cbn; [reflexivity|].
  intros H. apply andb_true_iff in H. destruct H as [Hc Hs].
  apply negb_true_iff in Hc.
  destruct (Ascii.eqb c m) eqn:E.
  - apply Ascii.eqb_eq in E. subst c. congruence.
  - cbn. apply IH. exact Hs.
Qed.

Lemma forallb_app_true {A} (f : A -> bool) a b :
  forallb f a = true -> forallb f b = true -> forallb f (a ++ b) = true.
Proof. intros Ha Hb. rewrite forallb_app, Ha, Hb. reflexivity. Qed.

Lemma items_ok_cons first sep it tl :
  items_ok first ((sep, it) :: tl) = true ->
  blank sep = true /\ item_ok it = true
  /\ match it, tl with Bare _, _ :: _ => False | _, _ => True end
  /\ items_ok false tl = true.
Proof.
  cbn [items_ok]. intros H.
  repeat (apply andb_true_iff in H; destruct H as [H ?]).
  repeat split; try assumption.
  destruct it; try exact I. destruct tl; [exact I | discriminate].
Qed.

Lemma items_ok_weaken its : items_ok false its = true -> items_ok true its = true.
Proof.
  destruct its as [|[sep it] tl]; [reflexivity|]. cbn [items_ok].
  intros H. repeat (apply andb_true_iff in H; destruct H as [H ?]).
  rewrite H. cbn. repeat (apply andb_true_iff; split); assumption.
Qed.

Lemma blank_starts sep x :
  blank sep = true -> nonempty sep = true -> starts_blank (sep ++ x) = true.
Proof.
  destruct sep as [|c sep]; [discriminate 2|]. cbn.
  intros H _. apply andb_true_iff in H. destruct H as [H _]. exact H.
Qed.

Lemma items_ok_sep sep it tl :
  items_ok false ((sep, it) :: tl) = true ->
  blank sep = true /\ nonempty sep = true.
Proof.
  cbn [items_ok orb]. intros H.
  repeat (apply andb_true_iff in H; destruct H as [H ?]).
  split; assumption.
Qed.

Lemma render_starts_blank its :
  items_ok false its = true -> starts_blank (render its) = true.
Proof.
  destruct its as [|[sep it] tl]; [reflexivity|].
  intros H. apply items_ok_sep in H. destruct H as [H1 H2].
  cbn [render]. apply blank_starts; assumption.
Qed.

Lemma kept_starts_blank its :
  items_ok false its = true -> starts_blank (kept its) = true.
Proof.
  destruct its as [|[sep it] tl]; [reflexivity|].
  intros H. apply items_ok_sep in H. destruct H as [H1 H2].
  cbn [kept]. destruct it; apply blank_starts; assumption.
Qed.

Lemma item_ok_redir m gap path :
  item_ok (Redir m gap path) = true ->
  is_marker m = true /\ blank gap = true /\ path <> []
  /\ forallb plain_char path = true.
Proof.
  cbn [item_ok]. intros H.
  repeat (apply andb_true_iff in H; destruct H as [H ?]).
  match goal with Hp : plain _ = true |- _ => apply plain_inv in Hp; destruct Hp end.
  repeat split; assumption.
Qed.

(** [re.search] finds the path of the first clause of its direction. *)
Lemma re_search_render m its :
  is_marker m = true -> items_ok true its = true ->
  re_search m (render its) = first_path m its.
Proof.
  intros Hm. induction its as [|[sep it] tl IH]; [reflexivity|].
  intros Hok. apply items_ok_cons in Hok. destruct Hok as (Hsep & Hit & Hlast & Htl).
  specialize (IH (items_ok_weaken _ Htl)).
  pose proof (render_starts_blank _ Htl) as Hstart.
  pose proof (no_marker_not m _ Hm (blank_no_marker _ Hsep)) as Hsep'.
  cbn [render first_path]. destruct it as [w | m' gap path | m'].
  - apply plain_inv in Hit. destruct Hit as [_ Hw]. cbn [text].
    rewrite app_assoc, re_search_skip; [exact IH|].
    apply forallb_app_true; [exact Hsep'|].
    apply (no_marker_not m _ Hm). apply plain_chars_no_marker. exact Hw.
  - apply item_ok_redir in Hit. destruct Hit as (Hm' & Hgap & Hne & Hpath).
    cbn [text]. destruct (Ascii.eqb m' m) eqn:E.
    + rewrite (re_search_skip _ _ _ Hsep'). cbn [app re_search]. rewrite E.
      rewrite <- app_assoc.
      rewrite (match_path_clause gap path (render tl) Hgap Hne
                 (plain_chars_nonspace _ Hpath) Hstart).
      reflexivity.
    + rewrite app_assoc, re_search_skip; [exact IH|].
      apply forallb_app_true; [exact Hsep'|].
      cbn [forallb]. rewrite E. cbn [negb andb].
      apply forallb_app_true; apply (no_marker_not m _ Hm).
      * apply blank_no_marker. exact Hgap.
      * apply plain_chars_no_marker. exact Hpath.
  - destruct tl; [|contradiction]. cbn [text render first_path app].
    rewrite (re_search_skip _ _ _ Hsep'). cbn [re_search].
    rewrite match_path_nil. destruct (Ascii.eqb m' m); reflexivity.
Qed.

(** [re.sub] deletes the clauses and nothing else. *)
Lemma re_sub_render its :
  items_ok true its = true -> re_sub (render its) = kept its.
Proof.
  induction its as [|[sep it] tl IH]; [reflexivity|].
  intros Hok. apply items_ok_cons in Hok. destruct Hok as (Hsep & Hit & Hlast & Htl).
  specialize (IH (items_ok_weaken _ Htl)).
  pose proof (render_starts_blank _ Htl) as Hstart.
  pose proof (blank_no_marker _ Hsep) as Hsep'.
  cbn [render kept]. destruct it as [w | m' gap path | m'].
  - apply plain_inv in Hit. destruct Hit as [_ Hw]. cbn [text].
    rewrite (re_sub_skip _ _ Hsep').
    rewrite (re_sub_skip _ _ (plain_chars_no_marker _ Hw)), IH. reflexivity.
  - apply item_ok_redir in Hit. destruct Hit as (Hm' & Hgap & Hne & Hpath).
    cbn [text]. rewrite (re_sub_skip _ _ Hsep'). cbn [app].
    rewrite re_sub_cons, Hm', <- app_assoc.
    rewrite (match_path_clause gap path (render tl) Hgap Hne
               (plain_chars_nonspace _ Hpath) Hstart).
    rewrite IH. reflexivity.
  - destruct tl; [|contradiction]. cbn [text render kept app].
    cbn [item_ok] in Hit.
    rewrite (re_sub_skip _ _ Hsep'), re_sub_cons, Hit, match_path_nil, re_sub_nil.
    reflexivity.
Qed.

(** Tokenizing what is left gives the plain tokens, and a closing bare
    marker as a token of its own. *)
Lemma split_ws_kept its :
  items_ok true its = true -> split_ws (kept its) [] = tokens its.
Proof.
  induction its as [|[sep it] tl IH]; [reflexivity|].
  intros Hok. apply items_ok_cons in Hok. destruct Hok as (Hsep & Hit & Hlast & Htl).
  specialize (IH (items_ok_weaken _ Htl)).
  pose proof (kept_starts_blank _ Htl) as Hstart.
  cbn [kept tokens]. destruct it as [w | m' gap path | m'].
  - apply plain_inv in Hit. destruct Hit as [Hne Hw]. cbn [text].
    rewrite (split_ws_token sep w (kept tl) Hsep Hne (plain_chars_nonspace _ Hw) Hstart).
    rewrite IH. reflexivity.
  - rewrite (split_ws_blank _ _ Hsep). exact IH.
  - cbn [text item_ok] in *. apply marker_not_special in Hit.
    destruct Hit as (Hsp & _ & _).
    rewrite (split_ws_token sep [m'] (kept tl) Hsep); [rewrite IH; reflexivity| | |exact Hstart].
    + discriminate.
    + cbn. unfold nonspace. rewrite Hsp. reflexivity.
Qed.

(** Lines 51-62 on a segment of the grammar. *)
Lemma redirections_render its :
  items_ok true its = true ->
  redirections (render its)
  = (first_path "<"%char its, first_path ">"%char its, tokens its).
Proof.
  intros Hok. unfold redirections.
  rewrite (re_search_render "<"%char its eq_refl Hok).
  rewrite (re_search_render ">"%char its eq_refl Hok).
  rewrite split_ws_strip, (re_sub_render its Hok), (split_ws_kept its Hok).
  reflexivity.
Qed.

Lemma text_first it :
  item_ok it = true -> exists c s, text it = c :: s /\ isspace c = false.
Proof.
  destruct it as [w | m gap path | m]; intros H.
  - apply plain_inv in H. destruct H as [Hne Hw].
    destruct w as [|c w]; [contradiction|]. exists c, w. split; [reflexivity|].
    cbn in Hw. apply andb_true_iff in Hw. destruct Hw as [Hc _].
    apply plain_char_inv in Hc. tauto.
  - apply item_ok_redir in H. destruct H as (Hm & _).
    exists m, (gap ++ path). split; [reflexivity|].
    apply marker_not_special in Hm. tauto.
  - exists m, []. split; [reflexivity|].
    apply marker_not_special in H. tauto.
Qed.

Lemma text_last_solid it : item_ok it = true -> last_solid (text it) = true.
Proof.
  destruct it as [w | m gap path | m]; intros H.
  - apply last_solid_plain. exact H.
  - cbn [item_ok] in H. apply andb_true_iff in H. destruct H as [_ Hp].
    cbn [text]. change (m :: gap ++ path) with ((m :: gap) ++ path).
    rewrite last_solid_app; [apply last_solid_plain; exact Hp|].
    apply plain_inv in Hp. tauto.
  - apply marker_not_special in H. destruct H as (H1 & _ & H3).
    cbn. rewrite H1, H3. reflexivity.
Qed.

Lemma last_solid_nonempty s : last_solid s = true -> s <> [].
Proof. destruct s; [discriminate 1 | discriminate]. Qed.

Lemma render_last_solid its :
  its <> [] -> items_ok true its = true -> last_solid (render its) = true.
Proof.
  induction its as [|[sep it] tl IH]; [contradiction|].
  intros _ Hok. apply items_ok_cons in Hok. destruct Hok as (Hsep & Hit & Hlast & Htl).
  cbn [render]. destruct tl as [|x tl'].
  - cbn [render]. rewrite app_nil_r.
    rewrite last_solid_app; [apply text_last_solid; exact Hit|].
    apply last_solid_nonempty. apply text_last_solid. exact Hit.
  - assert (H : last_solid (render (x :: tl')) = true).
    { apply IH; [discriminate | apply items_ok_weaken; exact Htl]. }
    rewrite app_assoc, last_solid_app; [exact H|].
    apply last_solid_nonempty. exact H.
Qed.

Lemma render_no_pipe its :
  items_ok true its = true ->
  forallb (fun c => negb (Ascii.eqb c "|"%char)) (render its) = true.
Proof.
  assert (Hblank : forall s, blank s = true ->
            forallb (fun c => negb (Ascii.eqb c "|"%char)) s = true).
  { induction s as [|c s IHs]; cbn; [reflexivity|]. intros H.
    apply andb_true_iff in H. destruct H as [Hc Hs].
    apply isspace_not_special in Hc. destruct Hc as (_ & Hc & _).
    rewrite Hc. cbn. apply IHs. exact Hs. }
  assert (Hplain : forall s, forallb plain_char s = true ->
            forallb (fun c => negb (Ascii.eqb c "|"%char)) s = true).
  { induction s as [|c s IHs]; cbn; [reflexivity|]. intros H.
    apply andb_true_iff in H. destruct H as [Hc Hs].
    apply plain_char_inv in Hc. destruct Hc as (_ & _ & Hc & _).
    rewrite Hc. cbn. apply IHs. exact Hs. }
  induction its as [|[sep it] tl IH]; [reflexivity|].
  intros Hok. apply items_ok_cons in Hok. destruct Hok as (Hsep & Hit & Hlast & Htl).
  specialize (IH (items_ok_weaken _ Htl)). cbn [render].
  apply forallb_app_true; [apply Hblank; exact Hsep|].
  apply forallb_app_true; [|exact IH].
  destruct it as [w | m gap path | m]; cbn [text].
  - apply Hplain. apply plain_inv in Hit. tauto.
  - apply item_ok_redir in Hit. destruct Hit as (Hm & Hgap & _ & Hpath).
    apply marker_not_special in Hm. destruct Hm as (_ & Hm & _).
    cbn [forallb]. rewrite Hm. cbn [negb andb].
    apply forallb_app_true; [apply Hblank; exact Hgap | apply Hplain; exact Hpath].
  - cbn [item_ok] in Hit. apply marker_not_special in Hit.
    destruct Hit as (_ & Hm & _). cbn. rewrite Hm. reflexivity.
Qed.

Lemma line_ok_inv its :
  line_ok its = true ->
  its <> [] /\ items_ok true its = true /\ lstrip (render its) = render its.
Proof.
  destruct its as [|[[|c sep] it] tl]; cbn [line_ok]; try discriminate.
  intros Hok. split; [discriminate|]. split; [exact Hok|].
  apply items_ok_cons in Hok. destruct Hok as (_ & Hit & _).
  apply text_first in Hit. destruct Hit as (c & s & Ht & Hc).
  cbn [render app]. rewrite Ht. cbn [app]. apply lstrip_solid. exact Hc.
Qed.

(** [parser] on a line that is one stripped segment of the grammar: no
    diagnostic, and the single stage the segment stands for (none when the
    segment holds no token). *)
Lemma parser_render its :
  line_ok its = true -> parser (render its) = ([], PList (stage_of its)).
Proof.
  intros H. apply line_ok_inv in H. destruct H as (Hne & Hok & Hl).
  pose proof (render_last_solid its Hne Hok) as Hlast.
  unfold parser. rewrite (split_on_none _ _ _ (render_no_pipe its Hok)).
  cbn [app List.length parser_loop]. unfold strip.
  rewrite Hl, (rstrip_last_solid _ Hlast), (endswith_last_solid _ Hlast).
  rewrite (redirections_render its Hok). unfold stage_of.
  destruct (tokens its); reflexivity.
Qed.

Lemma tokens_app a b : tokens (a ++ b) = tokens a ++ tokens b.
Proof.
  induction a as [|[sep it] a IH]; [reflexivity|].
  cbn [app tokens]. destruct it; rewrite IH; reflexivity.
Qed.

Lemma first_path_tokens m a b :
  only_tokens a = true -> first_path m (a ++ b) = first_path m b.
Proof.
  induction a as [|[sep it] a IH]; [reflexivity|].
  cbn [only_tokens forallb snd]. intros H. apply andb_true_iff in H.
  destruct H as [Hit Ha]. destruct it; try discriminate Hit.
  cbn [app first_path]. apply IH. exact Ha.
Qed.

Lemma first_path_only_tokens m a : only_tokens a = true -> first_path m a = None.
Proof.
  intros H. rewrite <- (app_nil_r a). rewrite (first_path_tokens m a [] H).
  reflexivity.
Qed.




Lemma first_path_bare m' body sep m :
  first_path m' (body ++ [(sep, Bare m)]) = first_path m' body.
Proof.
  induction body as [|[s it] body IH]; [reflexivity|].
  cbn [app first_path]. destruct it; try exact IH.
  rewrite IH. reflexivity.
Qed.



(** ** Claims on the parser *)




(** C10, as stated, fails.  In "cat > <" the marker [<] has no path after
    it and gives no input redirection, yet it is removed before tokenization
    (as the path of [>]) and is no element of [args].  In "cat<" the marker
    is kept but glued to the token before it: [args] is ["cat<"], of which
    "<" is no element. *)
Lemma bare_marker_consumed :
  (exists st,
     parser (lit "cat > <") = ([], PList [st])
     /\ input st = None
     /\ ~ In (lit "<") (args st))
  /\ (exists st,
        parser (lit "cat<") = ([], PList [st])
        /\ input st = None
        /\ ~ In (lit "<") (args st)).
Proof.
  split.
  - exists (mkStage (lit "cat") [lit "cat"] None (Some (lit "<")) false).
    split; [vm_compute; reflexivity|]. split; [reflexivity|].
    cbn. intros [H | []]. discriminate H.
  - exists (mkStage (lit "cat<") [lit "cat<"] None None false).
    split; [vm_compute; reflexivity|]. split; [reflexivity|].
    cbn. intros [H | []]. discriminate H.
Qed.

(** C10 (amended): for every segment of the input grammar that ends with a
    redirection marker standing alone (after whitespace, or as the whole
    segment), parsing does not fail and yields one stage; the marker gives
    no redirection (input and output are those of the clauses before it,
    [None] when the segment holds only tokens) and it is not removed: it is
    the last element of [args], after the plain tokens.  For example "cat <"
    yields args ["cat", "<"]. *)
Theorem bare_marker_kept (body : list (str * item)) (sep : str) (m : ascii) :
  line_ok (body ++ [(sep, Bare m)]) = true ->
  parser (render (body ++ [(sep, Bare m)]))
  = ([], PList [mkStage (hd [m] (tokens body)) (tokens body ++ [[m]])
                        (first_path "<"%char body) (first_path ">"%char body)
                        false])
  /\ (only_tokens body = true ->
      first_path "<"%char body = None /\ first_path ">"%char body = None)
  /\ parser (lit "cat <")
     = ([], PList [mkStage (lit "cat") [lit "cat"; lit "<"] None None false]).
Proof.
  intros Hok. split; [|split].
  - rewrite (parser_render _ Hok). unfold stage_of.
    rewrite tokens_app, !first_path_bare. cbn [tokens].
    destruct (tokens body); reflexivity.
  - intros Htok. split; apply first_path_only_tokens; exact Htok.
  - vm_compute. reflexivity.
Qed.

Lemma bare_marker_kept_witness :
  parser (render ([([], Tok (lit "sort")); (lit " ", Tok (lit "-r"))]
                  ++ [(lit "  ", Bare ">"%char)]))
  = ([], PList [mkStage (lit "sort") [lit "sort"; lit "-r"; lit ">"] None None
                        false]).
Proof.
  destruct (bare_marker_kept
              [([], Tok (lit "sort")); (lit " ", Tok (lit "-r"))] (lit "  ")
              ">"%char eq_refl) as (H & _).
  exact H.
Defined.

(** * Further properties *)

(** ** The parser on every line *)

Lemma split_ws_words s : forall cur,
  forallb nonspace cur = true ->
  Forall (fun x => word x = true) (split_ws s cur).
Proof.
  induction s as [|c s IH]; intros cur Hcur; cbn [split_ws].
  - destruct cur as [|x cur]; cbn [emit]; constructor; [|constructor].
    unfold word. cbn [nonempty andb]. exact Hcur.
  - destruct (isspace c) eqn:E.
    + apply Forall_app. split; [|apply IH; reflexivity].
      destruct cur as [|x cur]; cbn [emit]; constructor; [|constructor].
      unfold word. cbn [nonempty andb]. exact Hcur.
    + apply IH. rewrite forallb_app, Hcur. cbn. unfold nonspace. rewrite E.
      reflexivity.
Qed.

Lemma take_nonspace_nonspace s : forallb nonspace (fst (take_nonspace s)) = true.
Proof.
  induction s as [|c s IH]; [reflexivity|]. cbn [take_nonspace].
  destruct (isspace c) eqn:E; [reflexivity|].
  destruct (take_nonspace s) as [p r]. cbn in *. unfold nonspace at 1.
  rewrite E. exact IH.
Qed.

Lemma match_path_word s p r : match_path s = Some (p, r) -> word p = true.
Proof.
  unfold match_path. pose proof (take_nonspace_nonspace (lstrip s)) as H.
  destruct (take_nonspace (lstrip s)) as [p' r']. cbn in H.
  destruct p' as [|c p']; [discriminate|].
  intros E. inversion E; subst. unfold word. cbn [nonempty andb]. exact H.
Qed.

Lemma re_search_word m s p : re_search m s = Some p -> word p = true.
Proof.
  induction s as [|c s IH]; [discriminate|]. cbn [re_search].
  destruct (Ascii.eqb c m); [|exact IH].
  destruct (match_path s) as [[p' r]|] eqn:E; [|exact IH].
  intros H. inversion H; subst. exact (match_path_word _ _ _ E).
Qed.

(** Every stage the loop appends is built from [redirections]. *)
Lemma parser_loop_forall (P : Stage -> Prop) n :
  (forall c bg inp out p0 parts,
     redirections c = (inp, out, p0 :: parts) ->
     P (mkStage p0 (p0 :: parts) inp out bg)) ->
  forall rest i acc evs l,
    Forall P acc ->
    parser_loop n i rest acc = (evs, PList l) ->
    Forall P l.
Proof.
  intros Hnew. induction rest as [|seg rest IH]; intros i acc evs l Hacc;
    cbn [parser_loop].
  - intros H. inversion H; subst. exact Hacc.
  - assert (Hstep : forall bg c,
              (let '(inp, out, parts) := redirections c in
               parser_loop n (S i) rest
                 match parts with
                 | [] => acc
                 | p0 :: _ => acc ++ [mkStage p0 parts inp out bg]
                 end) = (evs, PList l) -> Forall P l).
    { intros bg c. destruct (redirections c) as [[inp out] parts] eqn:E.
      destruct parts as [|p0 parts]; apply IH; [exact Hacc|].
      apply Forall_app. split; [exact Hacc|].
      constructor; [|constructor]. exact (Hnew _ _ _ _ _ _ E). }
    destruct (endswith (strip seg) "&"%char).
    + destruct (i <? n - 1); [intros H; discriminate H|]. apply Hstep.
    + apply Hstep.
Qed.

(** X1: in every stage [parser] returns, on any line, [args] is non-empty,
    its first element is [cmd], and each of its elements is a non-empty
    string without whitespace. *)
Theorem parser_args_invariant (line : str) (l : list Stage) :
  snd (parser line) = PList l ->
  Forall (fun s => hd_error (args s) = Some (cmd s)
                   /\ forallb word (args s) = true) l.
Proof.
  destruct (parser line) as [evs p] eqn:E. cbn [snd]. intros ->.
  unfold parser in E.
  refine (parser_loop_forall _ _ _ _ _ _ _ _ (Forall_nil _) E).
  intros c bg inp out p0 parts Hr. cbn [args cmd]. split; [reflexivity|].
  unfold redirections in Hr. inversion Hr as [[Hin Hout Hparts]].
  apply forallb_forall. apply Forall_forall. apply split_ws_words. reflexivity.
Qed.

Lemma parser_args_invariant_witness :
  Forall (fun s => hd_error (args s) = Some (cmd s)
                   /\ forallb word (args s) = true)
         [mkStage (lit "grep") [lit "grep"; lit "x"] (Some (lit "in")) None false;
          mkStage (lit "sort") [lit "sort"] None (Some (lit "out")) true].
Proof.
  apply (parser_args_invariant (lit "grep x <in | sort >out &")).
  vm_compute. reflexivity.
Defined.

(** X2: every redirection path [parser] extracts, on any line, is a
    non-empty string without whitespace; so the tests [if cmd['input']] and
    [if cmd['output']] of [redirect] never discard a parsed path. *)
Theorem parser_paths_invariant (line : str) (l : list Stage) :
  snd (parser line) = PList l ->
  Forall (fun s => path_word (input s) = true /\ path_word (output s) = true
                   /\ truthy (input s) = input s
                   /\ truthy (output s) = output s) l.
Proof.
  destruct (parser line) as [evs p] eqn:E. cbn [snd]. intros ->.
  unfold parser in E.
  refine (parser_loop_forall _ _ _ _ _ _ _ _ (Forall_nil _) E).
  intros c bg inp out p0 parts Hr. cbn [input output].
  unfold redirections in Hr. inversion Hr as [[Hin Hout Hparts]].
  clear Hr Hparts.
  assert (H : forall m, path_word (re_search m c) = true
                        /\ truthy (re_search m c) = re_search m c).
  { intros m. destruct (re_search m c) as [p|] eqn:Es; [|split; reflexivity].
    apply re_search_word in Es. cbn [path_word]. split; [exact Es|].
    destruct p; [discriminate Es | reflexivity]. }
  destruct (H "<"%char) as [H1 H2]. destruct (H ">"%char) as [H3 H4].
  repeat split; assumption.
Qed.

Lemma parser_paths_invariant_witness :
  Forall (fun s => path_word (input s) = true /\ path_word (output s) = true
                   /\ truthy (input s) = input s
                   /\ truthy (output s) = output s)
         [mkStage (lit "cat") [lit "cat"] (Some (lit "in>out")) (Some (lit "out"))
                  false].
Proof.
  apply (parser_paths_invariant (lit "cat <in>out")).
  vm_compute. reflexivity.
Defined.

Lemma removelast_snoc {A} (l : list A) (x : A) : removelast (l ++ [x]) = l.
Proof. rewrite removelast_app; [cbn; apply app_nil_r | discriminate]. Qed.

Lemma Forall_removelast {A} (P : A -> Prop) (l : list A) :
  Forall P l -> Forall P (removelast l).
Proof.
  induction 1 as [|x l Hx Hl IH]; [constructor|].
  cbn [removelast]. destruct l; [constructor|]. constructor; assumption.
Qed.

Lemma parser_loop_background_last n : forall rest i acc evs l,
  i + List.length rest = n ->
  rest <> [] ->
  Forall (fun s => background s = false) acc ->
  parser_loop n i rest acc = (evs, PList l) ->
  Forall (fun s => background s = false) (removelast l).
Proof.
  induction rest as [|seg rest IH]; intros i acc evs l Hn Hne Hacc;
    [contradiction|].
  cbn [parser_loop List.length] in *.
  destruct (endswith (strip seg) "&"%char).
  - destruct (i <? n - 1) eqn:Hi; [intros H; discriminate H|].
    apply Nat.ltb_ge in Hi.
    destruct rest as [|seg' rest]; [|cbn [List.length] in Hn; lia].
    destruct (redirections (strip (removelast (strip seg)))) as [[inp out] parts].
    cbn [parser_loop]. intros H. inversion H; subst.
    destruct parts as [|p0 parts].
    + apply Forall_removelast. exact Hacc.
    + rewrite removelast_snoc. exact Hacc.
  - destruct (redirections (strip seg)) as [[inp out] parts].
    set (acc' := match parts with
                 | [] => acc
                 | p0 :: _ => acc ++ [mkStage p0 parts inp out false]
                 end).
    assert (Hacc' : Forall (fun s => background s = false) acc').
    { subst acc'. destruct parts; [exact Hacc|].
      apply Forall_app. split; [exact Hacc|]. constructor; [reflexivity|constructor]. }
    destruct rest as [|seg' rest].
    + cbn [parser_loop]. intros H. inversion H; subst.
      apply Forall_removelast. exact Hacc'.
    + apply IH; [lia | discriminate | exact Hacc'].
Qed.

Lemma split_on_nonempty sep s cur : split_on sep s cur <> [].
Proof.
  revert cur. induction s as [|c s IH]; intros cur; cbn; [discriminate|].
  destruct (Ascii.eqb c sep); [discriminate | apply IH].
Qed.

(** X3: in the list [parser] returns, on any line, only the last stage can
    have the background flag set; every stage before it has it clear. *)
Theorem parser_background_last_only (line : str) (l : list Stage) :
  snd (parser line) = PList l ->
  Forall (fun s => background s = false) (removelast l).
Proof.
  destruct (parser line) as [evs p] eqn:E. cbn [snd]. intros ->.
  unfold parser in E.
  apply (parser_loop_background_last (List.length (split_on "|"%char line []))
           (split_on "|"%char line []) 0 [] evs l);
    [reflexivity | apply split_on_nonempty | constructor | exact E].
Qed.

Lemma parser_background_last_only_witness :
  Forall (fun s => background s = false)
         (removelast
            [mkStage (lit "grep") [lit "grep"; lit "x"] (Some (lit "in")) None false;
             mkStage (lit "sort") [lit "sort"] None (Some (lit "out")) true]).
Proof.
  apply (parser_background_last_only (lit "grep x <in | sort >out &")).
  vm_compute. reflexivity.
Defined.

Lemma parser_loop_false n : forall rest i acc evs,
  i + List.length rest = n ->
  parser_loop n i rest acc = (evs, PFalse) ->
  exists k, k + 1 < List.length rest
            /\ endswith (strip (nth k rest [])) "&"%char = true.
Proof.
  induction rest as [|seg rest IH]; intros i acc evs Hn; cbn [parser_loop].
  - intros H. discriminate H.
  - cbn [List.length] in Hn.
    assert (Hstep : forall bg c,
              (let '(inp, out, parts) := redirections c in
               parser_loop n (S i) rest
                 match parts with
                 | [] => acc
                 | p0 :: _ => acc ++ [mkStage p0 parts inp out bg]
                 end) = (evs, PFalse) ->
              exists k, k + 1 < List.length (seg :: rest)
                        /\ endswith (strip (nth k (seg :: rest) [])) "&"%char = true).
    { intros bg c. destruct (redirections c) as [[inp out] parts]. intros H.
      apply IH in H; [|lia]. destruct H as (k & Hk & Hend).
      exists (S k). cbn [List.length nth]. split; [lia | exact Hend]. }
    destruct (endswith (strip seg) "&"%char) eqn:E.
    + destruct (i <? n - 1) eqn:Hi; [|apply Hstep].
      intros _. apply Nat.ltb_lt in Hi. exists 0. cbn [List.length nth].
      split; [lia | exact E].
    + apply Hstep.
Qed.

(** X4: [parser] returns [False] exactly when some segment other than the
    last ends, once stripped, with "&"; it then has written the one
    diagnostic.  In every other case it returns a list and writes nothing. *)
Theorem parser_false_iff (line : str) :
  (snd (parser line) = PFalse <->
   exists k, k + 1 < List.length (split_on "|"%char line [])
             /\ endswith (strip (nth k (split_on "|"%char line []) [])) "&"%char
                = true)
  /\ (snd (parser line) = PFalse -> fst (parser line) = [EWrite 2 syntax_error_msg])
  /\ (forall l, snd (parser line) = PList l -> fst (parser line) = []).
Proof.
  assert (Hif : (exists k, k + 1 < List.length (split_on "|"%char line [])
             /\ endswith (strip (nth k (split_on "|"%char line []) [])) "&"%char
                = true) -> parser line = ([EWrite 2 syntax_error_msg], PFalse)).
  { intros (k & Hk & Hend). unfold parser.
    apply (parser_loop_background _ _ 0 [] k); [reflexivity | exact Hk | exact Hend]. }
  assert (Honly : snd (parser line) = PFalse ->
            exists k, k + 1 < List.length (split_on "|"%char line [])
             /\ endswith (strip (nth k (split_on "|"%char line []) [])) "&"%char
                = true).
  { destruct (parser line) as [evs p] eqn:E. cbn [snd]. intros ->.
    unfold parser in E. exact (parser_loop_false _ _ 0 [] evs eq_refl E). }
  split; [split|split].
  - exact Honly.
  - intros H. rewrite (Hif H). reflexivity.
  - intros H. rewrite (Hif (Honly H)). reflexivity.
  - intros l. destruct (parser line) as [evs p] eqn:E. cbn [snd fst]. intros ->.
    unfold parser in E. exact (parser_loop_list _ _ _ _ _ _ E).
Qed.

(** ** The resolver on every name *)

Lemma search_paths_sound w paths name exe :
  search_paths w paths name = Ret (Some exe) ->
  access_x w exe = true /\ exists e, In e paths /\ exe = path_join e name.
Proof.
  induction paths as [|e paths IH]; cbn [search_paths]; [discriminate|].
  unfold os_access. destruct (has_nul (path_join e name)); [discriminate|].
  destruct (access_x w (path_join e name)) eqn:E.
  - intros H. inversion H; subst. split; [exact E|].
    exists e. split; [left; reflexivity | reflexivity].
  - intros H. apply IH in H. destruct H as (Hx & e' & Hin & Heq).
    split; [exact Hx|]. exists e'. split; [right; exact Hin | exact Heq].
Qed.

(** X5: whatever path [find_executable] returns is executable, and it is
    either the name itself or a search-path entry joined with the name. *)
Theorem find_executable_sound (w : World) (c : Stage) (exe : str) :
  find_executable w c = Ret (Some exe) ->
  access_x w exe = true
  /\ (exe = cmd c
      \/ exists p e, env_path w = Some p
                     /\ In e (split_on ":"%char p [])
                     /\ exe = path_join e (cmd c)).
Proof.
  unfold find_executable, os_access.
  assert (Hsearch :
            match env_path w with
            | Some p => search_paths w (split_on ":"%char p []) (cmd c)
            | None => Raise KeyError
            end = Ret (Some exe) ->
            access_x w exe = true
            /\ (exe = cmd c
                \/ exists p e, env_path w = Some p
                               /\ In e (split_on ":"%char p [])
                               /\ exe = path_join e (cmd c))).
  { destruct (env_path w) as [p|]; [|discriminate].
    intros Hs. apply search_paths_sound in Hs.
    destruct Hs as (Hx & e & Hin & Heq). split; [exact Hx|].
    right. exists p, e. repeat split; assumption. }
  destruct (isabs (cmd c)); [|exact Hsearch].
  destruct (has_nul (cmd c)); [discriminate|].
  destruct (access_x w (cmd c)) eqn:E; [|exact Hsearch].
  intros H. inversion H; subst. split; [exact E | left; reflexivity].
Qed.

Lemma find_executable_sound_witness :
  access_x path_world (lit "/bin/ls") = true
  /\ (lit "/bin/ls" = cmd st_ls
      \/ exists p e, env_path path_world = Some p
                     /\ In e (split_on ":"%char p [])
                     /\ lit "/bin/ls" = path_join e (cmd st_ls)).
Proof.
  apply (find_executable_sound path_world st_ls (lit "/bin/ls")).
  vm_compute. reflexivity.
Defined.

Lemma search_paths_absolute w paths name :
  isabs name = true -> has_nul name = false -> access_x w name = false ->
  search_paths w paths name = Ret None.
Proof.
  intros Habs Hn Hx. induction paths as [|e paths IH]; [reflexivity|].
  cbn [search_paths]. unfold os_access, path_join. rewrite Habs, Hn, Hx. exact IH.
Qed.

(** X6: an absolute name is never resolved through the search path: with
    the search-path variable set, [find_executable] raises [ValueError] when
    the name holds a NUL character, and otherwise returns the name itself
    when it is executable and [None] when it is not, whatever the entries. *)
Theorem find_executable_absolute (w : World) (c : Stage) (p : str) :
  isabs (cmd c) = true ->
  env_path w = Some p ->
  find_executable w c
  = if has_nul (cmd c) then Raise ValueError
    else Ret (if access_x w (cmd c) then Some (cmd c) else None).
Proof.
  intros Habs Henv. unfold find_executable, os_access. rewrite Habs, Henv.
  destruct (has_nul (cmd c)) eqn:Hn; [reflexivity|].
  destruct (access_x w (cmd c)) eqn:E; [reflexivity|].
  exact (search_paths_absolute w _ _ Habs Hn E).
Qed.

Lemma find_executable_absolute_witness :
  find_executable slash_world st_abs = Ret None
  /\ find_executable slash_world st_abs_nul = Raise ValueError.
Proof.
  split.
  - exact (find_executable_absolute slash_world st_abs (lit "/bin") eq_refl eq_refl).
  - exact (find_executable_absolute slash_world st_abs_nul (lit "/bin")
             eq_refl eq_refl).
Defined.

(** ** The orchestrator in a child *)

Lemma run_single_child w c fk :
  run (run_cmds w [c]) (0%Z :: fk)
  = (let '(o, st) :=
       (exe <- lift (find_executable w c);; redirect w c;; execute w exe c)
         (mkSt [EGetpid; EFork 0] fk) in
     (o, log st)).
Proof. reflexivity. Qed.

Lemma run_first_child_of_pair w a b fk :
  run (run_cmds w [a; b]) (0%Z :: fk)
  = (let '(o, st) :=
       (exe <- lift (find_executable w a);;
        redirect w a;;
        (os_close (fst (pipe_fds w));; os_dup2 (snd (pipe_fds w)) 1;;
         os_close (snd (pipe_fds w)));;
        execute w exe a)
         (mkSt [EPipe (fst (pipe_fds w)) (snd (pipe_fds w));
                ESetInheritable (fst (pipe_fds w));
                ESetInheritable (snd (pipe_fds w)); EGetpid; EFork 0] fk) in
     (o, log st)).
Proof.
  unfold run, run_cmds. destruct (pipe_fds w) as [pr pw] eqn:Hp.
  cbn. unfold os_pipe. rewrite Hp. reflexivity.
Qed.

Lemma run_second_child_of_pair w a b rc fk :
  (0 < rc)%Z ->
  run (run_cmds w [a; b]) (rc :: 0%Z :: fk)
  = (let '(o, st) :=
       (exe2 <- lift (find_executable w b);;
        redirect w b;;
        os_dup2 (fst (pipe_fds w)) 0;;
        os_close (fst (pipe_fds w));;
        execute w exe2 b)
         (mkSt ([EPipe (fst (pipe_fds w)) (snd (pipe_fds w));
                 ESetInheritable (fst (pipe_fds w));
                 ESetInheritable (snd (pipe_fds w)); EGetpid; EFork rc;
                 EClose (snd (pipe_fds w)); EWaitpid rc]
                ++ status_report 2 child1_msg (waitpid_result w rc)
                ++ [EFork 0]) fk) in
     (o, log st)).
Proof.
  intros H. destruct (pid_tests rc H) as [H1 H2].
  unfold run, run_cmds, status_report. destruct (pipe_fds w) as [pr pw] eqn:Hp.
  cbn. unfold os_pipe. rewrite Hp. cbn. unfold bind at 1. cbn.
  rewrite H1, H2. cbn.
  destruct (snd (waitpid_result w rc) =? 0)%Z; reflexivity.
Qed.

Lemma open_succeeds_inv w p :
  open_succeeds w p = true -> open_failure w p = None.
Proof. unfold open_succeeds. destruct (open_failure w p); [discriminate | reflexivity]. Qed.

Lemma open_failure_none w p :
  open_failure w p = None -> has_nul p = false /\ open_ok w p = true.
Proof.
  unfold open_failure. destruct (has_nul p); [discriminate|].
  destruct (open_ok w p); [split; reflexivity | discriminate].
Qed.

Lemma os_open_read_ok w p lg fk :
  open_failure w p = None ->
  os_open_read w p (mkSt lg fk) = (Ret tt, mkSt (lg ++ [EOpenRead p]) fk).
Proof.
  intros H. apply open_failure_none in H. destruct H as [Hn Ho].
  unfold os_open_read, bind, emit_event. rewrite Hn. cbn [log forks].
  rewrite Ho. reflexivity.
Qed.

Lemma os_open_write_ok w p lg fk :
  open_failure w p = None ->
  os_open_write w p (mkSt lg fk) = (Ret tt, mkSt (lg ++ [EOpenWrite p]) fk).
Proof.
  intros H. apply open_failure_none in H. destruct H as [Hn Ho].
  unfold os_open_write, bind, emit_event. rewrite Hn. cbn [log forks].
  rewrite Ho. reflexivity.
Qed.

Lemma os_open_read_fail w p lg fk e :
  open_failure w p = Some e ->
  exists evs,
    os_open_read w p (mkSt lg fk) = (Raise e, mkSt (lg ++ evs) fk)
    /\ filter is_exec evs = [] /\ writes evs = [].
Proof.
  unfold open_failure, os_open_read, bind, emit_event.
  destruct (has_nul p).
  - intros H. inversion H; subst. exists []. rewrite app_nil_r.
    repeat split.
  - destruct (open_ok w p); [discriminate|]. intros H. inversion H; subst.
    exists [EOpenRead p]. repeat split.
Qed.

Lemma os_open_write_fail w p lg fk e :
  open_failure w p = Some e ->
  exists evs,
    os_open_write w p (mkSt lg fk) = (Raise e, mkSt (lg ++ evs) fk)
    /\ filter is_exec evs = [] /\ writes evs = [].
Proof.
  unfold open_failure, os_open_write, bind, emit_event.
  destruct (has_nul p).
  - intros H. inversion H; subst. exists []. rewrite app_nil_r.
    repeat split.
  - destruct (open_ok w p); [discriminate|]. intros H. inversion H; subst.
    exists [EOpenWrite p]. repeat split.
Qed.

Lemma redirect_halves w c : redirect w c = (redirect_input w c;; redirect_output w c).
Proof. reflexivity. Qed.

Lemma redirect_ok w c st :
  opens_ok w c = true ->
  redirect w c st = (Ret tt, mkSt (log st ++ redirect_events c) (forks st)).
Proof.
  unfold opens_ok. intros H. apply andb_true_iff in H. destruct H as [H1 H2].
  rewrite redirect_halves. unfold redirect_events, redirect_input, redirect_output.
  destruct st as [lg fk]. unfold bind at 1.
  destruct (truthy (input c)) as [p|].
  - apply open_succeeds_inv in H1.
    unfold bind at 1. unfold os_close at 1, emit_event at 1. cbn [log forks].
    unfold bind at 1. rewrite (os_open_read_ok w p _ _ H1).
    unfold os_set_inheritable at 1, emit_event at 1. cbn [log forks].
    destruct (truthy (output c)) as [q|].
    + apply open_succeeds_inv in H2.
      unfold bind at 1. unfold os_close at 1, emit_event at 1. cbn [log forks].
      unfold bind at 1. rewrite (os_open_write_ok w q _ _ H2).
      unfold os_set_inheritable, emit_event. cbn [log forks].
      rewrite <- !app_assoc. reflexivity.
    + unfold ret. rewrite <- !app_assoc. reflexivity.
  - unfold ret at 1. destruct (truthy (output c)) as [q|].
    + apply open_succeeds_inv in H2.
      unfold bind at 1. unfold os_close at 1, emit_event at 1. cbn [log forks].
      unfold bind at 1. rewrite (os_open_write_ok w q _ _ H2).
      unfold os_set_inheritable, emit_event. cbn [log forks].
      rewrite <- !app_assoc. reflexivity.
    + unfold ret. cbn [log forks app]. rewrite app_nil_r. reflexivity.
Qed.

Lemma execute_found w e c st :
  execve_result w e = ExecOk ->
  execute w (Some e) c st
  = (Replaced e (args c), mkSt (log st ++ [EExecve e (args c)]) (forks st)).
Proof. intros H. unfold execute. rewrite H. reflexivity. Qed.

Lemma execute_not_found w c st :
  execute w None c st
  = (Raise (SystemExit 1),
     mkSt (log st ++ [EWrite 2 (cmd c ++ lit ": command not found" ++ nl)])
          (forks st)).
Proof. reflexivity. Qed.

(** X7: when the search-path variable is not set, [find_executable] raises
    [KeyError] on every relative name, and on every absolute name that holds
    no NUL character and is not executable; an absolute name that holds NUL
    raises [ValueError] before the variable is read, and an executable one
    is returned.  Where it raises [KeyError], the child that called it stops
    there, before any redirection and any [execve]. *)
Theorem find_executable_without_path (w : World) (c d : Stage) (fk : list Z) :
  env_path w = None ->
  find_executable w c
  = (if isabs (cmd c) then
       if has_nul (cmd c) then Raise ValueError
       else if access_x w (cmd c) then Ret (Some (cmd c)) else Raise KeyError
     else Raise KeyError)
  /\ (isabs (cmd c) && (has_nul (cmd c) || access_x w (cmd c)) = false ->
      run (run_cmds w [c]) (0%Z :: fk) = (Raise KeyError, [EGetpid; EFork 0])
      /\ run (run_cmds w [c; d]) (0%Z :: fk)
         = (Raise KeyError,
            [EPipe (fst (pipe_fds w)) (snd (pipe_fds w));
             ESetInheritable (fst (pipe_fds w)); ESetInheritable (snd (pipe_fds w));
             EGetpid; EFork 0])).
Proof.
  intros Henv.
  assert (H : find_executable w c
              = (if isabs (cmd c) then
                   if has_nul (cmd c) then Raise ValueError
                   else if access_x w (cmd c) then Ret (Some (cmd c))
                        else Raise KeyError
                 else Raise KeyError)).
  { unfold find_executable, os_access. rewrite Henv.
    destruct (isabs (cmd c)); [|reflexivity].
    destruct (has_nul (cmd c)); [reflexivity|].
    destruct (access_x w (cmd c)); reflexivity. }
  split; [exact H|]. intros Hno.
  assert (Hk : find_executable w c = Raise KeyError).
  { rewrite H. destruct (isabs (cmd c)); [|reflexivity]. cbn [andb] in Hno.
    apply orb_false_iff in Hno. destruct Hno as [-> ->]. reflexivity. }
  split.
  - rewrite run_single_child. unfold bind, lift. rewrite Hk. reflexivity.
  - rewrite run_first_child_of_pair. unfold bind, lift. rewrite Hk. reflexivity.
Qed.

Lemma find_executable_without_path_witness :
  find_executable no_path_world st_ls = Raise KeyError
  /\ find_executable no_path_world st_abs_nul = Raise ValueError
  /\ run (run_cmds no_path_world [st_ls]) [0%Z] = (Raise KeyError, [EGetpid; EFork 0])
  /\ run (run_cmds no_path_world [st_ls; st_wc]) [0%Z]
     = (Raise KeyError,
        [EPipe 3 4; ESetInheritable 3; ESetInheritable 4; EGetpid; EFork 0]).
Proof.
  destruct (find_executable_without_path no_path_world st_ls st_wc [] eq_refl)
    as [H1 H2].
  destruct (find_executable_without_path no_path_world st_abs_nul st_wc [] eq_refl)
    as [H3 _].
  destruct (H2 eq_refl) as [H4 H5].
  split; [exact H1|]. split; [exact H3|]. split; [exact H4 | exact H5].
Defined.

Lemma filter_app_nil {A} (f : A -> bool) a b :
  filter f a = [] -> filter f b = [] -> filter f (a ++ b) = [].
Proof. intros Ha Hb. rewrite filter_app, Ha, Hb. reflexivity. Qed.

Lemma writes_app a b : writes (a ++ b) = writes a ++ writes b.
Proof.
  induction a as [|e a IH]; [reflexivity|].
  destruct e; cbn; rewrite ?IH; reflexivity.
Qed.

Lemma redirect_input_ok w c lg fk :
  match truthy (input c) with Some p => open_failure w p | None => None end = None ->
  exists evs,
    redirect_input w c (mkSt lg fk) = (Ret tt, mkSt (lg ++ evs) fk)
    /\ filter is_exec evs = [] /\ writes evs = [].
Proof.
  unfold redirect_input. destruct (truthy (input c)) as [p|]; intros H.
  - exists [EClose 0; EOpenRead p; ESetInheritable 0].
    split; [|split; reflexivity].
    unfold bind at 1. unfold os_close at 1, emit_event at 1. cbn [log forks].
    unfold bind at 1. rewrite (os_open_read_ok w p _ _ H).
    unfold os_set_inheritable, emit_event. cbn [log forks].
    rewrite <- !app_assoc. reflexivity.
  - exists []. rewrite app_nil_r. repeat split.
Qed.

Lemma redirect_fails w c st e :
  redirect_failure w c = Some e ->
  exists evs,
    redirect w c st = (Raise e, mkSt (log st ++ evs) (forks st))
    /\ filter is_exec evs = [] /\ writes evs = [].
Proof.
  unfold redirect_failure. rewrite redirect_halves. destruct st as [lg fk].
  cbn [log forks].
  assert (Hout : forall lg',
            match truthy (output c) with
            | Some q => open_failure w q
            | None => None
            end = Some e ->
            exists evs,
              redirect_output w c (mkSt lg' fk) = (Raise e, mkSt (lg' ++ evs) fk)
              /\ filter is_exec evs = [] /\ writes evs = []).
  { intros lg'. unfold redirect_output.
    destruct (truthy (output c)) as [q|]; [|discriminate]. intros H.
    destruct (os_open_write_fail w q (lg' ++ [EClose 1]) fk e H)
      as (evs & Ho & Hx & Hw).
    exists (EClose 1 :: evs). split; [|split].
    - unfold bind at 1. unfold os_close at 1, emit_event at 1. cbn [log forks].
      unfold bind at 1. rewrite Ho. rewrite <- app_assoc. reflexivity.
    - cbn. exact Hx.
    - cbn. exact Hw. }
  destruct (truthy (input c)) as [p|] eqn:Hin.
  - destruct (open_failure w p) as [e'|] eqn:Hp.
    + intros H. inversion H; subst e'.
      destruct (os_open_read_fail w p (lg ++ [EClose 0]) fk e Hp)
        as (evs & Ho & Hx & Hw).
      exists (EClose 0 :: evs). split; [|split].
      * unfold bind at 1. unfold redirect_input. rewrite Hin.
        unfold bind at 1. unfold os_close at 1, emit_event at 1. cbn [log forks].
        unfold bind at 1. rewrite Ho. rewrite <- app_assoc. reflexivity.
      * cbn. exact Hx.
      * cbn. exact Hw.
    + intros H.
      destruct (redirect_input_ok w c lg fk) as (ev1 & H1 & Hx1 & Hw1).
      { rewrite Hin. exact Hp. }
      destruct (Hout (lg ++ ev1) H) as (ev2 & H2 & Hx2 & Hw2).
      exists (ev1 ++ ev2). split; [|split].
      * unfold bind at 1. rewrite H1, H2, <- app_assoc. reflexivity.
      * rewrite filter_app, Hx1, Hx2. reflexivity.
      * rewrite writes_app, Hw1, Hw2. reflexivity.
  - intros H.
    destruct (redirect_input_ok w c lg fk) as (ev1 & H1 & Hx1 & Hw1).
    { rewrite Hin. reflexivity. }
    destruct (Hout (lg ++ ev1) H) as (ev2 & H2 & Hx2 & Hw2).
    exists (ev1 ++ ev2). split; [|split].
    + unfold bind at 1. rewrite H1, H2, <- app_assoc. reflexivity.
    + rewrite filter_app, Hx1, Hx2. reflexivity.
    + rewrite writes_app, Hw1, Hw2. reflexivity.
Qed.

(** X8: when an [os.open] of [redirect] fails, the child raises that
    exception out of [run_cmds], once the executable has been looked up:
    [ValueError] when the path holds a NUL character, [OSError] when the
    system refuses the file.  Nothing is executed and [run_cmds] writes no
    diagnostic of its own. *)
Theorem redirect_open_failure (w : World) (c d : Stage) (exe : option str)
    (e : exn) (fk : list Z) :
  redirect_failure w c = Some e ->
  find_executable w c = Ret exe ->
  (e = ValueError \/ e = OSError)
  /\ (fst (run (run_cmds w [c]) (0%Z :: fk)) = Raise e
      /\ filter is_exec (snd (run (run_cmds w [c]) (0%Z :: fk))) = []
      /\ writes (snd (run (run_cmds w [c]) (0%Z :: fk))) = [])
  /\ (fst (run (run_cmds w [c; d]) (0%Z :: fk)) = Raise e
      /\ filter is_exec (snd (run (run_cmds w [c; d]) (0%Z :: fk))) = []
      /\ writes (snd (run (run_cmds w [c; d]) (0%Z :: fk))) = []).
Proof.
  intros Hopen Hexe. split; [|split].
  - revert Hopen. unfold redirect_failure, open_failure.
    destruct (truthy (input c)) as [p|]; destruct (truthy (output c)) as [q|];
      repeat match goal with
        | |- context [if ?b then _ else _] => destruct b
        end;
      intros H; inversion H; auto.
  - destruct (redirect_fails w c (mkSt [EGetpid; EFork 0] fk) e Hopen)
      as (evs & Hr & Hx & Hw).
    assert (Hrun : run (run_cmds w [c]) (0%Z :: fk)
                   = (Raise e, [EGetpid; EFork 0] ++ evs)).
    { rewrite run_single_child. unfold bind, lift. rewrite Hexe.
      cbn beta iota. rewrite Hr. reflexivity. }
    rewrite Hrun. cbn [fst snd]. repeat split.
    + apply filter_app_nil; [reflexivity | exact Hx].
    + rewrite writes_app, Hw. reflexivity.
  - destruct (redirect_fails w c
                (mkSt [EPipe (fst (pipe_fds w)) (snd (pipe_fds w));
                       ESetInheritable (fst (pipe_fds w));
                       ESetInheritable (snd (pipe_fds w)); EGetpid; EFork 0] fk)
                e Hopen) as (evs & Hr & Hx & Hw).
    assert (Hrun : run (run_cmds w [c; d]) (0%Z :: fk)
                   = (Raise e,
                      [EPipe (fst (pipe_fds w)) (snd (pipe_fds w));
                       ESetInheritable (fst (pipe_fds w));
                       ESetInheritable (snd (pipe_fds w)); EGetpid; EFork 0]
                      ++ evs)).
    { rewrite run_first_child_of_pair. unfold bind, lift. rewrite Hexe.
      cbn beta iota. rewrite Hr. reflexivity. }
    rewrite Hrun. cbn [fst snd]. repeat split.
    + apply filter_app_nil; [reflexivity | exact Hx].
    + rewrite writes_app, Hw. reflexivity.
Qed.

Lemma redirect_open_failure_witness :
  (fst (run (run_cmds bare_world [st_cat_io]) [0%Z]) = Raise OSError
   /\ filter is_exec (snd (run (run_cmds bare_world [st_cat_io]) [0%Z])) = []
   /\ writes (snd (run (run_cmds bare_world [st_cat_io]) [0%Z])) = [])
  /\ (fst (run (run_cmds sample_world [st_cat_nul; st_wc]) [0%Z]) = Raise ValueError
      /\ filter is_exec (snd (run (run_cmds sample_world [st_cat_nul; st_wc]) [0%Z])) = []
      /\ writes (snd (run (run_cmds sample_world [st_cat_nul; st_wc]) [0%Z])) = []).
Proof.
  destruct (redirect_open_failure bare_world st_cat_io st_wc None OSError []
              eq_refl eq_refl) as (_ & H1 & _).
  destruct (redirect_open_failure sample_world st_cat_nul st_wc
              (Some (lit "/usr/bin/cat")) ValueError [] eq_refl eq_refl)
    as (_ & _ & H2).
  split; [exact H1 | exact H2].
Defined.

(** ** Where [run_cmds] returns *)

Lemma run_single_returns w c fk :
  fst (run (run_cmds w [c]) fk) = Ret tt -> forks_ok 1 fk = true.
Proof.
  unfold run. destruct (run_cmds w [c] (mkSt [] fk)) as [o st] eqn:E.
  cbn. intros Ho. subst o. revert E.
  unfold run_cmds. cbn. unfold bind at 1. cbn.
  destruct fk as [|rc fk]; cbn; [discriminate|].
  destruct (rc <? 0)%Z eqn:H1; [cbn; discriminate|].
  destruct (rc =? 0)%Z eqn:H2.
  { intros E. exfalso. revert E.
    apply no_return_bind_r. intros exe.
    apply no_return_bind_r. intros _.
    apply no_return_bind_r. intros _.
    apply execute_no_return. }
  intros _. unfold forks_ok. cbn. rewrite andb_true_r.
  apply Z.ltb_lt. apply Z.ltb_ge in H1. apply Z.eqb_neq in H2. lia.
Qed.

Lemma run_cmds_returns_inv w cmds fk :
  fst (run (run_cmds w cmds) fk) = Ret tt ->
  (List.length cmds = 1 \/ List.length cmds = 2)
  /\ forks_ok (List.length cmds) fk = true.
Proof.
  destruct cmds as [|a [|b [|c l]]]; intros H.
  - discriminate H.
  - split; [left; reflexivity | exact (run_single_returns _ _ _ H)].
  - split; [right; reflexivity | exact (run_pair_returns _ _ _ _ H)].
  - discriminate H.
Qed.

(** X9: [run_cmds] returns to its caller only in the parent, on a pipeline
    of one or two stages, after each [os.fork] it needed returned a child's
    pid.  A child never returns from [run_cmds] (it ends in [execve] or in
    an exception), and neither does a failed fork. *)
Theorem run_cmds_returns_in_parent (w : World) (cmds : list Stage) (fk : list Z) :
  fst (run (run_cmds w cmds) fk) = Ret tt ->
  (List.length cmds = 1 \/ List.length cmds = 2)
  /\ forks_ok (List.length cmds) fk = true.
Proof.
  intros H. destruct (run_cmds_returns_inv w cmds fk H) as [Hlen Hfk].
  split; [exact Hlen | exact Hfk].
Qed.

Lemma run_cmds_returns_in_parent_witness :
  (List.length [st_ls; st_wc] = 1 \/ List.length [st_ls; st_wc] = 2)
  /\ forks_ok (List.length [st_ls; st_wc]) [100; 101]%Z = true.
Proof.
  apply (run_cmds_returns_in_parent sample_world [st_ls; st_wc] [100; 101]%Z).
  reflexivity.
Defined.

(** X10: in the foreground the parent creates and waits strictly in turn:
    on two stages it forks stage 1, waits for it with [os.waitpid], and only
    then forks stage 2 and waits for it; on one stage it forks once and
    waits with [os.wait], which names no pid. *)
Theorem foreground_waits_in_turn (w : World) (a b c : Stage) (rc rc2 : Z)
    (fk : list Z) :
  (0 < rc)%Z -> (0 < rc2)%Z ->
  background b = false -> background c = false ->
  filter (fun e => is_fork e || is_wait e)
         (snd (run (run_cmds w [a; b]) (rc :: rc2 :: fk)))
  = [EFork rc; EWaitpid rc; EFork rc2; EWaitpid rc2]
  /\ filter (fun e => is_fork e || is_wait e)
            (snd (run (run_cmds w [c]) (rc :: fk)))
     = [EFork rc; EWait].
Proof.
  intros Hrc Hrc2 Hb Hc. split.
  - rewrite (run_pair_parent w a b rc rc2 fk Hrc Hrc2), Hb. unfold status_report.
    destruct (negb (snd (waitpid_result w rc) =? 0)%Z);
      destruct (negb (snd (waitpid_result w rc2) =? 0)%Z); reflexivity.
  - rewrite (run_single_parent w c rc fk Hrc), Hc. unfold status_report.
    destruct (negb (snd (wait_result w) =? 0)%Z); reflexivity.
Qed.

Lemma foreground_waits_in_turn_witness :
  filter (fun e => is_fork e || is_wait e)
         (snd (run (run_cmds sample_world [st_ls; st_wc]) [100; 101]%Z))
  = [EFork 100; EWaitpid 100; EFork 101; EWaitpid 101]
  /\ filter (fun e => is_fork e || is_wait e)
            (snd (run (run_cmds sample_world [st_ls]) [100]%Z))
     = [EFork 100; EWait].
Proof.
  apply (foreground_waits_in_turn sample_world st_ls st_wc st_ls 100 101 []);
    try reflexivity; lia.
Defined.

(** ** Descriptor tables *)

Lemma fd_lookup_cons fd fd' r tab :
  fd_lookup fd ((fd', r) :: tab)
  = if (fd' =? fd)%Z then Some r else fd_lookup fd tab.
Proof. unfold fd_lookup. cbn. destruct (fd' =? fd)%Z; reflexivity. Qed.

Lemma fd_lookup_remove fd fd' tab :
  fd_lookup fd (fd_remove fd' tab)
  = if (fd =? fd')%Z then None else fd_lookup fd tab.
Proof.
  induction tab as [|[k r] tab IH]; [destruct (fd =? fd')%Z; reflexivity|].
  unfold fd_remove in *. cbn [filter fst].
  destruct (k =? fd')%Z eqn:E1; cbn [negb].
  - rewrite IH, fd_lookup_cons. apply Z.eqb_eq in E1. subst k.
    destruct (fd =? fd')%Z eqn:E2; [reflexivity|].
    rewrite Z.eqb_sym, E2. reflexivity.
  - rewrite !fd_lookup_cons, IH.
    destruct (k =? fd)%Z eqn:E2; [|reflexivity].
    apply Z.eqb_eq in E2. subst k. rewrite E1. reflexivity.
Qed.

Lemma fd_lookup_set fd fd' r tab :
  fd_lookup fd (fd_set fd' r tab)
  = if (fd =? fd')%Z then Some r else fd_lookup fd tab.
Proof.
  unfold fd_set. rewrite fd_lookup_cons, fd_lookup_remove, (Z.eqb_sym fd' fd).
  destruct (fd =? fd')%Z; reflexivity.
Qed.

Lemma fd_remove_fresh fd tab : fd_lookup fd tab = None -> fd_remove fd tab = tab.
Proof.
  induction tab as [|[k r] tab IH]; [reflexivity|].
  rewrite fd_lookup_cons. unfold fd_remove in *. cbn [filter fst].
  destruct (k =? fd)%Z; [discriminate|].
  intros H. cbn [negb]. rewrite (IH H). reflexivity.
Qed.

Lemma fd_remove_set fd r tab :
  fd_lookup fd tab = None -> fd_remove fd (fd_set fd r tab) = tab.
Proof.
  intros H. unfold fd_set. rewrite (fd_remove_fresh _ _ H).
  unfold fd_remove. cbn [filter fst]. rewrite Z.eqb_refl. cbn [negb].
  apply (fd_remove_fresh _ _ H).
Qed.

Lemma is_open_lookup fd tab :
  is_open fd tab = match fd_lookup fd tab with Some _ => true | None => false end.
Proof. reflexivity. Qed.

Lemma lowest_free_0 tab : fd_lookup 0%Z tab = None -> lowest_free tab = 0%Z.
Proof.
  intros H. unfold lowest_free. destruct (List.length tab); [reflexivity|].
  cbn [first_free]. rewrite is_open_lookup, H. reflexivity.
Qed.

Lemma lowest_free_1 tab r :
  fd_lookup 0%Z tab = Some r -> fd_lookup 1%Z tab = None -> lowest_free tab = 1%Z.
Proof.
  intros H0 H1. unfold lowest_free. destruct tab as [|e tab]; [discriminate H0|].
  cbn [List.length first_free]. rewrite is_open_lookup, H0. cbn [Z.add].
  destruct (List.length tab); [reflexivity|].
  cbn [first_free]. rewrite is_open_lookup, H1. reflexivity.
Qed.

Lemma descriptors_app w a b tab :
  descriptors w (a ++ b) tab = descriptors w b (descriptors w a tab).
Proof. unfold descriptors. apply fold_left_app. Qed.

Lemma descriptors_status w fd msg r tab :
  descriptors w (status_report fd msg r) tab = tab.
Proof. unfold status_report. destruct (negb (snd r =? 0)%Z); reflexivity. Qed.

(** [redirect] puts the input file on descriptor 0 and the output file on
    descriptor 1, and touches no other descriptor, when descriptor 0 is open
    beforehand. *)
Lemma descriptors_redirect w c tab r0 :
  opens_ok w c = true ->
  fd_lookup 0%Z tab = Some r0 ->
  forall fd,
    fd_lookup fd (descriptors w (redirect_events c) tab)
    = if (fd =? 0)%Z then
        match truthy (input c) with
        | Some p => Some (RFileRead p)
        | None => Some r0
        end
      else if (fd =? 1)%Z then
        match truthy (output c) with
        | Some p => Some (RFileWrite p)
        | None => fd_lookup 1%Z tab
        end
      else fd_lookup fd tab.
Proof.
  unfold opens_ok, redirect_events. intros Hopen H0 fd.
  apply andb_true_iff in Hopen. destruct Hopen as [Hin' Hout'].
  assert (Hin : match truthy (input c) with
                | Some p => open_ok w p
                | None => true
                end = true).
  { destruct (truthy (input c)); [|reflexivity].
    apply open_succeeds_inv, open_failure_none in Hin'. tauto. }
  assert (Hout : match truthy (output c) with
                 | Some p => open_ok w p
                 | None => true
                 end = true).
  { destruct (truthy (output c)); [|reflexivity].
    apply open_succeeds_inv, open_failure_none in Hout'. tauto. }
  clear Hin' Hout'.
  rewrite descriptors_app.
  set (tab1 := descriptors w match truthy (input c) with
                             | Some p => [EClose 0; EOpenRead p; ESetInheritable 0]
                             | None => []
                             end tab).
  assert (H1 : forall fd,
            fd_lookup fd tab1
            = if (fd =? 0)%Z then
                match truthy (input c) with
                | Some p => Some (RFileRead p)
                | None => Some r0
                end
              else fd_lookup fd tab).
  { subst tab1. intros x. destruct (truthy (input c)) as [p|].
    - unfold descriptors. cbn [fold_left apply_event]. rewrite Hin.
      rewrite lowest_free_0 by (rewrite fd_lookup_remove; reflexivity).
      rewrite fd_lookup_set, fd_lookup_remove.
      destruct (x =? 0)%Z; reflexivity.
    - cbn. destruct (x =? 0)%Z eqn:E; [|reflexivity].
      apply Z.eqb_eq in E. subst x. exact H0. }
  clearbody tab1.
  destruct (truthy (output c)) as [q|].
  - unfold descriptors. cbn [fold_left apply_event]. rewrite Hout.
    assert (Hfree : lowest_free (fd_remove 1 tab1) = 1%Z).
    { apply (lowest_free_1 _ match truthy (input c) with
                             | Some p => RFileRead p
                             | None => r0
                             end).
      - rewrite fd_lookup_remove, H1. cbn. destruct (truthy (input c)); reflexivity.
      - rewrite fd_lookup_remove. reflexivity. }
    rewrite Hfree, fd_lookup_set, fd_lookup_remove, H1.
    destruct (fd =? 1)%Z eqn:E1; destruct (fd =? 0)%Z eqn:E0; try reflexivity.
    apply Z.eqb_eq in E1. apply Z.eqb_eq in E0. lia.
  - cbn. rewrite !H1. destruct (fd =? 0)%Z eqn:E0; [reflexivity|].
    destruct (fd =? 1)%Z eqn:E1; [|reflexivity].
    apply Z.eqb_eq in E1. subst fd. reflexivity.
Qed.

Ltac solve_eqb :=
  repeat match goal with
    | |- context [(?x =? ?y)%Z] =>
        first
          [ rewrite (Z.eqb_refl x)
          | let H := fresh in
            assert (H : (x =? y)%Z = false) by (apply Z.eqb_neq; lia);
            rewrite H; clear H
          | let H := fresh in
            assert (H : (x =? y)%Z = true) by (apply Z.eqb_eq; lia);
            rewrite H; clear H ]
    end.

(** X11: when [run_cmds] returns, the descriptor table of the shell is what
    it was before the call, as long as [os.pipe] handed out two distinct
    descriptors that were not open: the pipe is closed again and nothing
    else was opened, closed or duplicated in the parent. *)
Theorem shell_descriptors_preserved (w : World) (cmds : list Stage)
    (fk : list Z) (tab : fd_table) :
  fst (run (run_cmds w cmds) fk) = Ret tt ->
  fd_lookup (fst (pipe_fds w)) tab = None ->
  fd_lookup (snd (pipe_fds w)) tab = None ->
  fst (pipe_fds w) <> snd (pipe_fds w) ->
  descriptors w (snd (run (run_cmds w cmds) fk)) tab = tab.
Proof.
  intros Hret Hpr Hpw Hne.
  destruct (run_cmds_returns_inv w cmds fk Hret) as [Hlen Hfk].
  destruct cmds as [|a [|b [|c l]]]; cbn in Hlen; try lia.
  - cbn in Hfk. apply forks_ok_1 in Hfk. destruct Hfk as (rc & fk' & -> & Hrc).
    rewrite (run_single_parent w a rc fk' Hrc). cbn [snd].
    rewrite descriptors_app.
    destruct (background a); [reflexivity|].
    change (EWait :: status_report 1 child_msg (wait_result w))
      with ([EWait] ++ status_report 1 child_msg (wait_result w)).
    rewrite descriptors_app, descriptors_status. reflexivity.
  - cbn in Hfk. apply forks_ok_2 in Hfk.
    destruct Hfk as (rc & rc2 & fk' & -> & Hrc & Hrc2).
    rewrite (run_pair_parent w a b rc rc2 fk' Hrc Hrc2). cbn [snd].
    destruct (pipe_fds w) as [pr pw]. cbn [fst snd] in *.
    rewrite !descriptors_app, descriptors_status.
    assert (H1 : descriptors w
                   [EPipe pr pw; ESetInheritable pr; ESetInheritable pw;
                    EGetpid; EFork rc; EClose pw; EWaitpid rc] tab
                 = fd_set pr RPipeRead tab).
    { unfold descriptors. cbn [fold_left apply_event].
      apply fd_remove_set. rewrite fd_lookup_set.
      assert (E : (pw =? pr)%Z = false) by (apply Z.eqb_neq; congruence).
      rewrite E. exact Hpw. }
    rewrite H1.
    assert (H2 : descriptors w [EFork rc2; EClose pr] (fd_set pr RPipeRead tab)
                 = tab).
    { unfold descriptors. cbn [fold_left apply_event].
      apply fd_remove_set. exact Hpr. }
    rewrite H2.
    destruct (background b); [reflexivity|].
    change (EWaitpid rc2 :: status_report 1 child2_msg (waitpid_result w rc2))
      with ([EWaitpid rc2] ++ status_report 1 child2_msg (waitpid_result w rc2)).
    rewrite descriptors_app, descriptors_status. reflexivity.
Qed.

Lemma shell_descriptors_preserved_witness :
  descriptors sample_world
    (snd (run (run_cmds sample_world [st_ls; st_wc_bg]) [100; 101]%Z)) std_table
  = std_table.
Proof.
  apply (shell_descriptors_preserved sample_world [st_ls; st_wc_bg]
           [100; 101]%Z std_table).
  - reflexivity.
  - reflexivity.
  - reflexivity.
  - discriminate.
Defined.

(** X12: in the first child of a two-stage pipeline that reaches [execve],
    started from descriptors 0, 1, 2 with the pipe on two other descriptors,
    descriptor 1 is the write end of the pipe, even when the stage names an
    output file (the file is opened, then replaced by the pipe); descriptor
    0 is the input file when there is one, else the shell's; both original
    pipe descriptors are closed. *)
Theorem pipe_writer_descriptors (w : World) (a b : Stage) (exe : str)
    (fk : list Z) :
  find_executable w a = Ret (Some exe) ->
  opens_ok w a = true ->
  execve_result w exe = ExecOk ->
  (2 < fst (pipe_fds w))%Z -> (2 < snd (pipe_fds w))%Z ->
  fst (pipe_fds w) <> snd (pipe_fds w) ->
  fst (run (run_cmds w [a; b]) (0%Z :: fk)) = Replaced exe (args a)
  /\ forall tab,
       tab = descriptors w (snd (run (run_cmds w [a; b]) (0%Z :: fk))) std_table ->
       fd_lookup 1%Z tab = Some RPipeWrite
       /\ fd_lookup 0%Z tab
          = Some match truthy (input a) with
                 | Some p => RFileRead p
                 | None => RStd 0
                 end
       /\ fd_lookup 2%Z tab = Some (RStd 2)
       /\ fd_lookup (fst (pipe_fds w)) tab = None
       /\ fd_lookup (snd (pipe_fds w)) tab = None.
Proof.
  intros Hexe Hopen Hok Hpr Hpw Hne.
  assert (Hrun : run (run_cmds w [a; b]) (0%Z :: fk)
                 = (Replaced exe (args a),
                    ([EPipe (fst (pipe_fds w)) (snd (pipe_fds w));
                      ESetInheritable (fst (pipe_fds w));
                      ESetInheritable (snd (pipe_fds w)); EGetpid; EFork 0]
                     ++ redirect_events a)
                    ++ [EClose (fst (pipe_fds w)); EDup2 (snd (pipe_fds w)) 1;
                        EClose (snd (pipe_fds w)); EExecve exe (args a)])).
  { rewrite run_first_child_of_pair. unfold bind, lift. rewrite Hexe.
    cbn beta iota. rewrite (redirect_ok w a _ Hopen). cbn beta iota.
    unfold os_close, os_dup2, emit_event. cbn beta iota. cbn [log forks].
    rewrite (execute_found w exe a _ Hok). cbn [log].
    rewrite <- !app_assoc. reflexivity. }
  rewrite Hrun. cbn [fst snd]. split; [reflexivity|].
  intros tab ->. destruct (pipe_fds w) as [pr pw]. cbn [fst snd] in *.
  rewrite !descriptors_app.
  set (t0 := descriptors w [EPipe pr pw; ESetInheritable pr; ESetInheritable pw;
                             EGetpid; EFork 0] std_table).
  assert (H0 : forall fd, fd_lookup fd t0
                          = if (fd =? pw)%Z then Some RPipeWrite
                            else if (fd =? pr)%Z then Some RPipeRead
                            else fd_lookup fd std_table).
  { intros fd. subst t0. unfold descriptors. cbn [fold_left apply_event].
    rewrite !fd_lookup_set. reflexivity. }
  assert (H00 : fd_lookup 0%Z t0 = Some (RStd 0)).
  { rewrite H0. solve_eqb. reflexivity. }
  pose proof (descriptors_redirect w a t0 (RStd 0) Hopen H00) as H1.
  set (t1 := descriptors w (redirect_events a) t0) in *. clearbody t1 t0.
  unfold descriptors. cbn [fold_left apply_event].
  assert (Hw : fd_lookup pw (fd_remove pr t1) = Some RPipeWrite).
  { rewrite fd_lookup_remove. solve_eqb. rewrite H1. solve_eqb.
    rewrite H0. solve_eqb. reflexivity. }
  rewrite Hw.
  repeat split;
    repeat first [ rewrite fd_lookup_remove | rewrite fd_lookup_set
                 | rewrite H1 | rewrite H0 | progress solve_eqb ];
    try reflexivity.
  destruct (truthy (input a)); reflexivity.
Qed.

Lemma pipe_writer_descriptors_witness :
  fst (run (run_cmds sample_world [st_ls_out; st_wc]) [0%Z])
  = Replaced (lit "/usr/bin/ls") [lit "ls"]
  /\ forall tab,
       tab = descriptors sample_world
               (snd (run (run_cmds sample_world [st_ls_out; st_wc]) [0%Z]))
               std_table ->
       fd_lookup 1%Z tab = Some RPipeWrite
       /\ fd_lookup 0%Z tab = Some (RStd 0)
       /\ fd_lookup 2%Z tab = Some (RStd 2)
       /\ fd_lookup 3%Z tab = None
       /\ fd_lookup 4%Z tab = None.
Proof.
  apply (pipe_writer_descriptors sample_world st_ls_out st_wc (lit "/usr/bin/ls") []).
  - reflexivity.
  - reflexivity.
  - reflexivity.
  - cbn. lia.
  - cbn. lia.
  - discriminate.
Defined.

(** X13: in the second child of a two-stage pipeline that reaches [execve],
    under the same conditions, descriptor 0 is the read end of the pipe,
    even when the stage names an input file (the file is opened, then
    replaced by the pipe); descriptor 1 is the output file when there is
    one, else the shell's; both original pipe descriptors are closed, the
    write end already by the parent before the fork. *)
Theorem pipe_reader_descriptors (w : World) (a b : Stage) (exe : str)
    (rc : Z) (fk : list Z) :
  (0 < rc)%Z ->
  find_executable w b = Ret (Some exe) ->
  opens_ok w b = true ->
  execve_result w exe = ExecOk ->
  (2 < fst (pipe_fds w))%Z -> (2 < snd (pipe_fds w))%Z ->
  fst (pipe_fds w) <> snd (pipe_fds w) ->
  fst (run (run_cmds w [a; b]) (rc :: 0%Z :: fk)) = Replaced exe (args b)
  /\ forall tab,
       tab = descriptors w (snd (run (run_cmds w [a; b]) (rc :: 0%Z :: fk)))
               std_table ->
       fd_lookup 0%Z tab = Some RPipeRead
       /\ fd_lookup 1%Z tab
          = Some match truthy (output b) with
                 | Some p => RFileWrite p
                 | None => RStd 1
                 end
       /\ fd_lookup 2%Z tab = Some (RStd 2)
       /\ fd_lookup (fst (pipe_fds w)) tab = None
       /\ fd_lookup (snd (pipe_fds w)) tab = None.
Proof.
  intros Hrc Hexe Hopen Hok Hpr Hpw Hne.
  assert (Hrun : run (run_cmds w [a; b]) (rc :: 0%Z :: fk)
                 = (Replaced exe (args b),
                    (([EPipe (fst (pipe_fds w)) (snd (pipe_fds w));
                       ESetInheritable (fst (pipe_fds w));
                       ESetInheritable (snd (pipe_fds w)); EGetpid; EFork rc;
                       EClose (snd (pipe_fds w)); EWaitpid rc]
                      ++ status_report 2 child1_msg (waitpid_result w rc)
                      ++ [EFork 0])
                     ++ redirect_events b)
                    ++ [EDup2 (fst (pipe_fds w)) 0; EClose (fst (pipe_fds w));
                        EExecve exe (args b)])).
  { rewrite (run_second_child_of_pair w a b rc fk Hrc). unfold bind, lift.
    rewrite Hexe. cbn beta iota. rewrite (redirect_ok w b _ Hopen).
    cbn beta iota. unfold os_close, os_dup2, emit_event. cbn beta iota.
    cbn [log forks]. rewrite (execute_found w exe b _ Hok). cbn [log].
    rewrite <- !app_assoc. reflexivity. }
  rewrite Hrun. cbn [fst snd]. split; [reflexivity|].
  intros tab ->. destruct (pipe_fds w) as [pr pw]. cbn [fst snd] in *.
  rewrite !descriptors_app, descriptors_status.
  set (t0 := descriptors w [EFork 0]
               (descriptors w [EPipe pr pw; ESetInheritable pr; ESetInheritable pw;
                               EGetpid; EFork rc; EClose pw; EWaitpid rc]
                  std_table)).
  assert (H0 : forall fd, fd_lookup fd t0
                          = if (fd =? pw)%Z then None
                            else if (fd =? pr)%Z then Some RPipeRead
                            else fd_lookup fd std_table).
  { intros fd. subst t0. unfold descriptors. cbn [fold_left apply_event].
    rewrite fd_lookup_remove, !fd_lookup_set.
    destruct (fd =? pw)%Z; reflexivity. }
  assert (H00 : fd_lookup 0%Z t0 = Some (RStd 0)).
  { rewrite H0. solve_eqb. reflexivity. }
  pose proof (descriptors_redirect w b t0 (RStd 0) Hopen H00) as H1.
  set (t1 := descriptors w (redirect_events b) t0) in *. clearbody t1 t0.
  unfold descriptors. cbn [fold_left apply_event].
  assert (Hr : fd_lookup pr t1 = Some RPipeRead).
  { rewrite H1. solve_eqb. rewrite H0. solve_eqb. reflexivity. }
  rewrite Hr.
  repeat split;
    repeat first [ rewrite fd_lookup_remove | rewrite fd_lookup_set
                 | rewrite H1 | rewrite H0 | progress solve_eqb ];
    try reflexivity.
  destruct (truthy (output b)); reflexivity.
Qed.

Lemma pipe_reader_descriptors_witness :
  fst (run (run_cmds sample_world [st_ls; st_wc_in]) [100; 0]%Z)
  = Replaced (lit "/usr/bin/wc") [lit "wc"]
  /\ forall tab,
       tab = descriptors sample_world
               (snd (run (run_cmds sample_world [st_ls; st_wc_in]) [100; 0]%Z))
               std_table ->
       fd_lookup 0%Z tab = Some RPipeRead
       /\ fd_lookup 1%Z tab = Some (RStd 1)
       /\ fd_lookup 2%Z tab = Some (RStd 2)
       /\ fd_lookup 3%Z tab = None
       /\ fd_lookup 4%Z tab = None.
Proof.
  apply (pipe_reader_descriptors sample_world st_ls st_wc_in (lit "/usr/bin/wc")
           100 []).
  - lia.
  - reflexivity.
  - reflexivity.
  - reflexivity.
  - cbn. lia.
  - cbn. lia.
  - discriminate.
Defined.

(** X14: in the child of a single-stage pipeline that reaches [execve],
    started from descriptors 0, 1, 2, descriptor 0 is the input file when
    the stage names one and descriptor 1 the output file when it names one;
    each is the shell's own otherwise, and descriptor 2 always is. *)
Theorem single_child_descriptors (w : World) (c : Stage) (exe : str)
    (fk : list Z) :
  find_executable w c = Ret (Some exe) ->
  opens_ok w c = true ->
  execve_result w exe = ExecOk ->
  fst (run (run_cmds w [c]) (0%Z :: fk)) = Replaced exe (args c)
  /\ forall tab,
       tab = descriptors w (snd (run (run_cmds w [c]) (0%Z :: fk))) std_table ->
       fd_lookup 0%Z tab
       = Some match truthy (input c) with
              | Some p => RFileRead p
              | None => RStd 0
              end
       /\ fd_lookup 1%Z tab
          = Some match truthy (output c) with
                 | Some p => RFileWrite p
                 | None => RStd 1
                 end
       /\ fd_lookup 2%Z tab = Some (RStd 2).
Proof.
  intros Hexe Hopen Hok.
  assert (Hrun : run (run_cmds w [c]) (0%Z :: fk)
                 = (Replaced exe (args c),
                    ([EGetpid; EFork 0] ++ redirect_events c)
                    ++ [EExecve exe (args c)])).
  { rewrite run_single_child. unfold bind, lift. rewrite Hexe.
    cbn beta iota. rewrite (redirect_ok w c _ Hopen). cbn beta iota.
    rewrite (execute_found w exe c _ Hok). cbn [log]. reflexivity. }
  rewrite Hrun. cbn [fst snd]. split; [reflexivity|].
  intros tab ->. rewrite !descriptors_app.
  change (descriptors w [EGetpid; EFork 0] std_table) with std_table.
  pose proof (descriptors_redirect w c std_table (RStd 0) Hopen eq_refl) as H1.
  set (t1 := descriptors w (redirect_events c) std_table) in *. clearbody t1.
  change (descriptors w [EExecve exe (args c)] t1) with t1.
  rewrite !H1. cbn.
  repeat split; [destruct (truthy (input c)) | destruct (truthy (output c))];
    reflexivity.
Qed.

Lemma single_child_descriptors_witness :
  fst (run (run_cmds sample_world [st_cat_io]) [0%Z])
  = Replaced (lit "/usr/bin/cat") [lit "cat"]
  /\ forall tab,
       tab = descriptors sample_world
               (snd (run (run_cmds sample_world [st_cat_io]) [0%Z])) std_table ->
       fd_lookup 0%Z tab = Some (RFileRead (lit "in.txt"))
       /\ fd_lookup 1%Z tab = Some (RFileWrite (lit "out.txt"))
       /\ fd_lookup 2%Z tab = Some (RStd 2).
Proof.
  apply (single_child_descriptors sample_world st_cat_io (lit "/usr/bin/cat") []);
    reflexivity.
Defined.

(** ** The shell loop *)

Lemma emit_events st evs :
  fold_right (fun e k => emit_event e;; k) (ret tt) evs st
  = (Ret tt, mkSt (log st ++ evs) (forks st)).
Proof.
  revert st. induction evs as [|e evs IH]; intros [lg fk]; cbn [fold_right].
  - cbn. rewrite app_nil_r. reflexivity.
  - unfold bind at 1. cbn [emit_event log forks]. rewrite IH. cbn [log forks].
    rewrite <- app_assoc. reflexivity.
Qed.

Lemma shell_body_exit w u st :
  startswith u (lit "exit") = true ->
  shell_body w u st = (Raise (SystemExit 0), st).
Proof. intros H. unfold shell_body. rewrite H. reflexivity. Qed.

Lemma shell_body_no_stage w u st :
  startswith u (lit "exit") = false ->
  snd (parser u) = PFalse \/ snd (parser u) = PList [] ->
  shell_body w u st
  = (Ret tt,
     mkSt (log st ++ fst (parser u)
           ++ [EPrint (match u with [] => [] | _ => lit "no commands" end)])
          (forks st)).
Proof.
  intros Hexit Hp. unfold shell_body. rewrite Hexit.
  destruct u as [|c0 u].
  - destruct st. reflexivity.
  - cbn [List.length Nat.eqb]. destruct (parser (c0 :: u)) as [evs p].
    cbn [fst snd] in *. unfold bind at 1. unfold ret at 1. cbn beta iota.
    unfold bind at 1. rewrite emit_events.
    destruct Hp as [-> | ->]; unfold print, emit_event; cbn [log forks];
      rewrite <- app_assoc; reflexivity.
Qed.

Lemma shell_body_stages w u st c cs :
  startswith u (lit "exit") = false ->
  snd (parser u) = PList (c :: cs) ->
  shell_body w u st = run_cmds w (c :: cs) st.
Proof.
  intros Hexit Hp. unfold shell_body. rewrite Hexit.
  destruct u as [|c0 u]; [discriminate Hp|].
  cbn [List.length Nat.eqb]. destruct (parser (c0 :: u)) as [evs p] eqn:E.
  cbn [snd] in Hp. subst p. unfold parser in E. apply parser_loop_list in E.
  subst evs. cbn [fold_right]. unfold bind at 1. unfold ret at 1. cbn beta iota.
  unfold bind at 1. unfold ret at 1. destruct st. reflexivity.
Qed.

(** X15: a line that starts with "exit" once stripped, whatever follows
    these four letters, ends the loop: the shell writes the prompt, prints
    "Exiting shell." and leaves by [break], without parsing the line,
    creating a process or reading further input. *)
Theorem exit_prefix_leaves_loop (w : World) (ps1 raw : str) (more : list str)
    (n : nat) (fk : list Z) :
  startswith (strip raw) (lit "exit") = true ->
  run (run_shell (S n) w ps1 (raw :: more)) fk
  = (Ret (Some tt), [EWrite 1 ps1; EPrint (lit "Exiting shell.")]).
Proof.
  intros H. unfold run. cbn [run_shell readline]. unfold bind at 1.
  unfold shell_iteration. unfold bind at 1. cbn [os_write emit_event log forks].
  rewrite (shell_body_exit w _ _ H). reflexivity.
Qed.

Lemma exit_prefix_leaves_loop_witness :
  run (run_shell 3 sample_world (lit "$ ") [lit "  exits | x &"; lit "ls"]) [100%Z]
  = (Ret (Some tt), [EWrite 1 (lit "$ "); EPrint (lit "Exiting shell.")]).
Proof.
  apply (exit_prefix_leaves_loop sample_world (lit "$ ") (lit "  exits | x &")
           [lit "ls"] 2 [100%Z]).
  reflexivity.
Defined.

Lemma run_shell_eof_from w ps1 n : forall lg fk,
  run_shell n w ps1 [] (mkSt lg fk)
  = (Ret None, mkSt (lg ++ List.concat (List.repeat [EWrite 1 ps1; EPrint []] n)) fk).
Proof.
  induction n as [|n IH]; intros lg fk.
  - cbn. rewrite app_nil_r. reflexivity.
  - cbn [run_shell readline List.repeat List.concat]. unfold bind at 1.
    unfold shell_iteration. unfold bind at 1. cbn [os_write emit_event log forks].
    change (strip []) with (@nil ascii).
    rewrite (shell_body_no_stage w [] _ eq_refl (or_intror eq_refl)).
    cbn [log forks fst parser]. rewrite IH. rewrite <- !app_assoc. reflexivity.
Qed.

(** X16: at the end of input the loop does not end: [readline] returns the
    empty string, which is handled as an empty line, so every iteration
    writes the prompt and prints an empty line, and after any number of
    iterations the loop is still running.  No process is created. *)
Theorem end_of_input_spins (w : World) (ps1 : str) (n : nat) (fk : list Z) :
  run (run_shell n w ps1 []) fk
  = (Ret None, List.concat (List.repeat [EWrite 1 ps1; EPrint []] n)).
Proof. unfold run. rewrite run_shell_eof_from. reflexivity. Qed.

(** X17: a line that parses to more than two stages ends the shell itself:
    [run_cmds] raises [ValueError], which the loop does not catch, so the
    exception leaves [run_shell] after the prompt was written; no process is
    created and the rest of the input is not read. *)
Theorem long_pipeline_kills_shell (w : World) (ps1 raw : str) (more : list str)
    (l : list Stage) (n : nat) (fk : list Z) :
  startswith (strip raw) (lit "exit") = false ->
  snd (parser (strip raw)) = PList l ->
  2 < List.length l ->
  run (run_shell (S n) w ps1 (raw :: more)) fk = (Raise ValueError, [EWrite 1 ps1]).
Proof.
  intros Hexit Hp Hlen. destruct l as [|a [|b [|c l]]]; cbn in Hlen; try lia.
  unfold run. cbn [run_shell readline]. unfold bind at 1.
  unfold shell_iteration. unfold bind at 1. cbn [os_write emit_event log forks].
  rewrite (shell_body_stages w _ _ _ _ Hexit Hp). reflexivity.
Qed.

Lemma long_pipeline_kills_shell_witness :
  run (run_shell 2 sample_world (lit "$ ") [lit "ls | sort | wc"; lit "ls"]) [100%Z]
  = (Raise ValueError, [EWrite 1 (lit "$ ")]).
Proof.
  apply (long_pipeline_kills_shell sample_world (lit "$ ") (lit "ls | sort | wc")
           [lit "ls"]
           [mkStage (lit "ls") [lit "ls"] None None false;
            mkStage (lit "sort") [lit "sort"] None None false;
            mkStage (lit "wc") [lit "wc"] None None false] 1 [100%Z]).
  - reflexivity.
  - vm_compute. reflexivity.
  - cbn. lia.
Defined.

Lemma run_cmds_single_child_from w c lg fk :
  run_cmds w [c] (mkSt lg (0%Z :: fk))
  = (exe <- lift (find_executable w c);; redirect w c;; execute w exe c)
      (mkSt (lg ++ [EGetpid; EFork 0]) fk).
Proof.
  unfold run_cmds. cbn. unfold bind at 1. cbn. rewrite <- app_assoc. reflexivity.
Qed.

(** X18: in the child of a single-stage line whose command is not found,
    the [SystemExit] that [execute] raises after its "command not found"
    diagnostic is caught by the handler of the loop the child is still in:
    the child prints "Exiting shell." and leaves [run_shell] by [break]; the
    exception does not leave [run_shell]. *)
Theorem not_found_child_leaves_loop (w : World) (ps1 raw : str) (more : list str)
    (c : Stage) (n : nat) (fk : list Z) :
  startswith (strip raw) (lit "exit") = false ->
  snd (parser (strip raw)) = PList [c] ->
  find_executable w c = Ret None ->
  opens_ok w c = true ->
  run (run_shell (S n) w ps1 (raw :: more)) (0%Z :: fk)
  = (Ret (Some tt),
     [EWrite 1 ps1; EGetpid; EFork 0] ++ redirect_events c
     ++ [EWrite 2 (cmd c ++ lit ": command not found" ++ nl);
         EPrint (lit "Exiting shell.")]).
Proof.
  intros Hexit Hp Hnone Hopen.
  unfold run. cbn [run_shell readline]. unfold bind at 1.
  unfold shell_iteration. unfold bind at 1. cbn [os_write emit_event log forks].
  rewrite (shell_body_stages w _ _ _ _ Hexit Hp).
  rewrite run_cmds_single_child_from. unfold bind at 1, lift. rewrite Hnone.
  unfold bind at 1. rewrite (redirect_ok w c _ Hopen).
  rewrite execute_not_found. cbn [log forks]. cbn [app].
  unfold bind, print, emit_event, ret. cbn [log forks].
  cbn [app]. rewrite <- app_assoc. reflexivity.
Qed.

Lemma not_found_child_leaves_loop_witness :
  run (run_shell 2 bare_world (lit "$ ") [lit "nonexistent_cmd_xyz"; lit "ls"]) [0%Z]
  = (Ret (Some tt),
     [EWrite 1 (lit "$ "); EGetpid; EFork 0]
     ++ redirect_events (mkStage (lit "nonexistent_cmd_xyz")
                                 [lit "nonexistent_cmd_xyz"] None None false)
     ++ [EWrite 2 (lit "nonexistent_cmd_xyz" ++ lit ": command not found" ++ nl);
         EPrint (lit "Exiting shell.")]).
Proof.
  apply (not_found_child_leaves_loop bare_world (lit "$ ")
           (lit "nonexistent_cmd_xyz") [lit "ls"]
           (mkStage (lit "nonexistent_cmd_xyz") [lit "nonexistent_cmd_xyz"]
                    None None false) 1 []).
  - reflexivity.
  - vm_compute. reflexivity.
  - reflexivity.
  - reflexivity.
Defined.

(** X19: a line that yields no stage (a blank line, separators only, or a
    misplaced "&") never ends the loop and never creates a process: the
    shell writes the prompt, whatever [parser] wrote, and one printed line,
    then goes on with the next line of input. *)
Theorem stageless_line_skipped (w : World) (ps1 raw : str) (more : list str)
    (n : nat) (lg : list event) (fk : list Z) :
  startswith (strip raw) (lit "exit") = false ->
  snd (parser (strip raw)) = PFalse \/ snd (parser (strip raw)) = PList [] ->
  run_shell (S n) w ps1 (raw :: more) (mkSt lg fk)
  = run_shell n w ps1 more
      (mkSt (lg ++ [EWrite 1 ps1] ++ fst (parser (strip raw))
             ++ [EPrint (match strip raw with
                         | [] => []
                         | _ => lit "no commands"
                         end)]) fk).
Proof.
  intros Hexit Hp. cbn [run_shell readline]. unfold bind at 1.
  unfold shell_iteration. unfold bind at 1. cbn [os_write emit_event log forks].
  rewrite (shell_body_no_stage w _ _ Hexit Hp). cbn [log forks].
  rewrite <- !app_assoc. reflexivity.
Qed.

Lemma stageless_line_skipped_witness :
  run_shell 2 sample_world (lit "$ ") [lit "cmd1 & | cmd2"; lit "exit"] (mkSt [] [])
  = run_shell 1 sample_world (lit "$ ") [lit "exit"]
      (mkSt ([] ++ [EWrite 1 (lit "$ ")] ++ fst (parser (strip (lit "cmd1 & | cmd2")))
             ++ [EPrint (match strip (lit "cmd1 & | cmd2") with
                         | [] => []
                         | _ => lit "no commands"
                         end)]) []).
Proof.
  apply (stageless_line_skipped sample_world (lit "$ ") (lit "cmd1 & | cmd2")
           [lit "exit"] 1 [] []).
  - reflexivity.
  - left. vm_compute. reflexivity.
Defined.

(** ** The built-in [cd] *)

(** X20: a plain "cd" (one element in [args]) whose change to the home
    directory fails with [FileNotFoundError] or [PermissionError] prints no
    diagnostic: the handler formats [args[1]], which does not exist, and
    [cd] ends in [IndexError].  So does [cd] on an empty [args]. *)
Theorem cd_plain_failure (chdir : str -> chdir_result) (home a : str) :
  chdir home = ChdirNotFound \/ chdir home = ChdirPermission ->
  cd chdir home [a] = CdIndexError /\ cd chdir home [] = CdIndexError.
Proof.
  intros H. split; [|reflexivity]. unfold cd. cbn [cd_target List.length Nat.eqb].
  destruct H as [-> | ->]; reflexivity.
Qed.

Lemma cd_plain_failure_witness :
  cd (fun _ => ChdirNotFound) (lit "/home/u") [lit "cd"] = CdIndexError
  /\ cd (fun _ => ChdirNotFound) (lit "/home/u") [] = CdIndexError.
Proof.
  apply (cd_plain_failure (fun _ => ChdirNotFound) (lit "/home/u") (lit "cd")).
  left. reflexivity.
Defined.

